(** * A shallow embedding of [shred.py] (hdfs-shred)

    The program coordinates the secure deletion of one HDFS file through a
    job store kept on HDFS, a lease store kept on ZooKeeper, and per-datanode
    work on the local filesystem.  The embedding follows the Python source
    function by function:
    - Python strings are Rocq [string]s, HDFS paths are lists of path
      components ([ospathjoin] of single components is list append);
    - Python exceptions are the constructors of [Exn]; a function that can
      raise runs in the state-and-exception monad [M] over a [World] that
      holds the HDFS namespace, the ZooKeeper nodes and leases, and the
      local filesystem of the datanode running the agent;
    - what a process reads from outside (its own IP, a fresh UUID, the clock,
      HDFS rename permission, the output of shell commands, mount points) is
      an [Env] record handed to each invocation. *)

From stdpp Require Import base gmap sets list strings sorting.
From Stdlib Require Import Ascii String.

Open Scope string_scope.

Local Infix "+s+" := String.append (at level 60, right associativity).

(** ** Exceptions raised by the program *)

Inductive Exn :=
| HdfsError
| AttributeError
| IndexError
| ValueError
| OSError
| TypeError.

(** ** String helpers: the Python string methods the program calls *)

Definition is_digit (c : ascii) : bool :=
  (48 <=? nat_of_ascii c)%nat && (nat_of_ascii c <=? 57)%nat.

(** [s.split(sep, 1)]: the text before the first [sep] and, when [sep]
    occurs, the text after it. *)
Fixpoint split1 (sep : ascii) (s : string) : string * option string :=
  match s with
  | EmptyString => (EmptyString, None)
  | String c r =>
      if Ascii.eqb c sep then (EmptyString, Some r)
      else let '(a, b) := split1 sep r in (String c a, b)
  end.

(** [s.rpartition("_")[0]]: the text before the last ['_'], or the empty string when
    there is no ['_']. *)
Fixpoint rpartition_head (sep : ascii) (s : string) : option string :=
  match s with
  | EmptyString => None
  | String c r =>
      match rpartition_head sep r with
      | Some h => Some (String c h)
      | None => if Ascii.eqb c sep then Some EmptyString else None
      end
  end.

Definition rpartition0 (sep : ascii) (s : string) : string :=
  default EmptyString (rpartition_head sep s).

(** [s.rstrip('\n')] *)
Definition nl : ascii := Ascii.ascii_of_nat 10.

Fixpoint rstrip_nl (s : string) : string :=
  match s with
  | EmptyString => EmptyString
  | String c r =>
      let r' := rstrip_nl r in
      if Ascii.eqb c nl then (if String.eqb r' EmptyString then EmptyString else String c r')
      else String c r'
  end.

(** ** The two regular expressions of [parse_blocks_from_fsck]

    [re.search(':(.+?) ', s).group(1)]: at the leftmost [':'] from which the
    pattern matches, one character other than a newline, then the shortest
    run of non-newline characters up to the next space. *)
Fixpoint upto_space (s : string) : option string :=
  match s with
  | EmptyString => None
  | String c r =>
      if Ascii.eqb c " " then Some EmptyString
      else if Ascii.eqb c nl then None
      else option_map (String c) (upto_space r)
  end.

Definition after_colon (s : string) : option string :=
  match s with
  | EmptyString => None
  | String c r => if Ascii.eqb c nl then None else option_map (String c) (upto_space r)
  end.

Fixpoint re_search_colon (s : string) : option string :=
  match s with
  | EmptyString => None
  | String c r =>
      if Ascii.eqb c ":" then
        match after_colon r with
        | Some g => Some g
        | None => re_search_colon r
        end
      else re_search_colon r
  end.

(** [re.findall("DatanodeInfoWithStorage\[(.*?)\]", s)]: scanning left to
    right, a match at a position yields the shortest newline-free text up
    to the next [']']; the scan resumes after the match, or one character
    further when there is no match.  [skip] counts the characters of the
    last match still to be passed over. *)
Definition dn_prefix : string := "DatanodeInfoWithStorage[".

Fixpoint upto_bracket (s : string) : option string :=
  match s with
  | EmptyString => None
  | String c r =>
      if Ascii.eqb c "]" then Some EmptyString
      else if Ascii.eqb c nl then None
      else option_map (String c) (upto_bracket r)
  end.

Fixpoint findall_dn_aux (skip : nat) (s : string) : list string :=
  match s with
  | EmptyString => []
  | String c r =>
      match skip with
      | S k => findall_dn_aux k r
      | O =>
          if String.prefix dn_prefix s then
            match upto_bracket (String.substring (String.length dn_prefix)
                                  (String.length s) s) with
            | Some g => g :: findall_dn_aux (String.length dn_prefix + String.length g) r
            | None => findall_dn_aux 0 r
            end
          else findall_dn_aux 0 r
      end
  end.

Definition findall_dn (s : string) : list string := findall_dn_aux 0 s.

(** ** [parse_blocks_from_fsck]

    The fsck report is the list of lines produced by [run_shell_command]
    (standard output and standard error merged, each line with its
    newline).  The result is the dict [{datanode_ip: [block_id, ...]}]. *)
Definition dict_append (ip b : string) (out : gmap string (list string))
  : gmap string (list string) :=
  <[ip := (default [] (out !! ip) ++ [b])%list]> out.

Definition dn_ip_of (entry : string) : string := fst (split1 ":" entry).

Definition parse_fsck_line (line : string) (out : gmap string (list string))
  : Exn + gmap string (list string) :=
  match line with
  | EmptyString => inl IndexError                (* current_line[0] *)
  | String c _ =>
      if is_digit c then
        let '(split0, split1opt) := split1 "[" line in
        match re_search_colon split0 with
        | None => inl AttributeError             (* None.group(1) *)
        | Some g =>
            let block_id := rpartition0 "_" g in
            match split1opt with
            | None => inl IndexError             (* output_split[1] *)
            | Some rest =>
                inr (fold_left (fun m entry => dict_append (dn_ip_of entry) block_id m)
                       (findall_dn rest) out)
            end
        end
      else inr out
  end.

Fixpoint parse_fsck_aux (lines : list string) (out : gmap string (list string))
  : Exn + gmap string (list string) :=
  match lines with
  | [] => inr out
  | l :: ls =>
      match parse_fsck_line l out with
      | inl e => inl e
      | inr out' => parse_fsck_aux ls out'
      end
  end.

Definition parse_blocks_from_fsck (raw_fsck : list string)
  : Exn + gmap string (list string) :=
  parse_fsck_aux raw_fsck ∅.


(** ** The world an invocation acts on *)

(** An HDFS namespace entry.  Directories also exist implicitly as the
    proper prefixes of the stored paths, as HDFS creates parent
    directories on write. *)
Inductive Entry :=
| EFile (content : string)
| EDir
| ESymlink.

Record World := mkWorld {
  ns : gmap (list string) Entry;          (* HDFS namespace *)
  wlog : list (list string * string);     (* every hdfs.write, in order *)
  zk_nodes : gset string;                 (* existing ZooKeeper nodes *)
  zk_leases : gmap string (string * nat); (* lease holder and end time per path *)
  lfs_dirs : gset (list string);          (* local directories, as realpath components *)
  lfs_files : gset (list string);         (* local files, as realpath components *)
  links : list (string * string);         (* os.link calls, in order *)
  errlog : list string                    (* log.error messages, in order *)
}.

Definition set_ns (n : gmap (list string) Entry) (w : World) : World :=
  mkWorld n (wlog w) (zk_nodes w) (zk_leases w) (lfs_dirs w) (lfs_files w) (links w) (errlog w).
Definition set_wlog (l : list (list string * string)) (w : World) : World :=
  mkWorld (ns w) l (zk_nodes w) (zk_leases w) (lfs_dirs w) (lfs_files w) (links w) (errlog w).
Definition set_zk (nodes : gset string) (ls : gmap string (string * nat)) (w : World) : World :=
  mkWorld (ns w) (wlog w) nodes ls (lfs_dirs w) (lfs_files w) (links w) (errlog w).
Definition set_lfs (ds fs : gset (list string)) (lk : list (string * string)) (w : World) : World :=
  mkWorld (ns w) (wlog w) (zk_nodes w) (zk_leases w) ds fs lk (errlog w).
Definition set_errlog (l : list string) (w : World) : World :=
  mkWorld (ns w) (wlog w) (zk_nodes w) (zk_leases w) (lfs_dirs w) (lfs_files w) (links w) l.

(** What one process reads from outside. *)
Record Env := mkEnv {
  identity : string;                 (* gethostbyname(gethostname()) *)
  uuid : string;                     (* str(uuid4()) *)
  now : nat;                         (* the clock, in minutes *)
  can_rename : list string -> bool;  (* HDFS permission to rename a path *)
  shell : list string -> list string;(* output lines of a shell command *)
  ismount : string -> bool;          (* os.path.ismount *)
  cwd : string                       (* os.getcwd() *)
}.

(** Configuration ([config.conf]). *)
Record Conf := mkConf {
  HDFS_SHRED_PATH : list string;
  ZK_PATH : string;                  (* conf.ZOOKEEPER['PATH'] *)
  WORKER_SLEEP : nat;
  LINUXFS_SHRED_PATH : string
}.

(** ** The state-and-exception monad *)

Definition M (A : Type) : Type := Env -> World -> (Exn + A) * World.

Definition ret {A} (x : A) : M A := fun _ w => (inr x, w).

Definition bindM {A B} (m : M A) (f : A -> M B) : M B := fun e w =>
  match m e w with
  | (inl ex, w') => (inl ex, w')
  | (inr a, w') => f a e w'
  end.

Declare Scope M_scope.
Notation "'let*' x := m 'in' k" := (bindM m (fun x => k))
  (at level 200, x name, m at level 100, k at level 200).
Notation "m ;; k" := (bindM m (fun _ => k))
  (at level 100, right associativity) : M_scope.
Open Scope M_scope.

Definition raise {A} (ex : Exn) : M A := fun _ w => (inl ex, w).
Definition ask : M Env := fun e w => (inr e, w).
Definition gets {A} (f : World -> A) : M A := fun _ w => (inr (f w), w).
Definition modify (f : World -> World) : M unit := fun _ w => (inr tt, f w).

(** [try: m except HdfsError: h] *)
Definition catch_hdfs {A} (m : M A) (h : M A) : M A := fun e w =>
  match m e w with
  | (inl HdfsError, w') => h e w'
  | r => r
  end.

Fixpoint mapM {A B} (f : A -> M B) (l : list A) : M (list B) :=
  match l with
  | [] => ret []
  | x :: xs => let* y := f x in let* ys := mapM f xs in ret (y :: ys)
  end.

Fixpoint forM_ {A} (l : list A) (f : A -> M unit) : M unit :=
  match l with
  | [] => ret tt
  | x :: xs => f x ;; forM_ xs f
  end.

Definition log_error (msg : string) : M unit :=
  modify (fun w => set_errlog (errlog w ++ [msg])%list w).

(** ** The HDFS client ([hdfs] module) *)

Definition strict_prefix (p k : list string) : bool :=
  bool_decide (p `prefix_of` k /\ p <> k).

Definition strict_prefixes (p : list string) : list (list string) :=
  map (fun n => take n p) (seq 0 (List.length p)).

(** The [type] field of [hdfs.status(p, strict=False)], [None] when the
    path does not exist. *)
Definition hdfs_kind (n : gmap (list string) Entry) (p : list string) : option string :=
  match n !! p with
  | Some (EFile _) => Some "FILE"
  | Some EDir => Some "DIRECTORY"
  | Some ESymlink => Some "SYMLINK"
  | None =>
      if bool_decide (p = []) || existsb (fun kv => strict_prefix p kv.1) (map_to_list n)
      then Some "DIRECTORY" else None
  end.

Definition is_hdfs_file (n : gmap (list string) Entry) (p : list string) : bool :=
  match n !! p with Some (EFile _) => true | _ => false end.

Definition hdfs_status (p : list string) : M (option string) := gets (fun w => hdfs_kind (ns w) p).

(** [hdfs.write(p, c, overwrite=True)] *)
Definition hdfs_write (p : list string) (c : string) : M unit := fun _ w =>
  if existsb (is_hdfs_file (ns w)) (strict_prefixes p) then (inl HdfsError, w)
  else if bool_decide (hdfs_kind (ns w) p = Some "DIRECTORY") then (inl HdfsError, w)
  else (inr tt, set_wlog (wlog w ++ [(p, c)])%list (set_ns (<[p := EFile c]> (ns w)) w)).

(** [hdfs.read(p)] read in full *)
Definition hdfs_read (p : list string) : M string := fun _ w =>
  match ns w !! p with
  | Some (EFile c) => (inr c, w)
  | _ => (inl HdfsError, w)
  end.

(** [hdfs.makedirs(p)] *)
Definition hdfs_makedirs (p : list string) : M unit := fun _ w =>
  if existsb (is_hdfs_file (ns w)) (strict_prefixes p ++ [p])%list then (inl HdfsError, w)
  else if bool_decide (hdfs_kind (ns w) p = Some "DIRECTORY") then (inr tt, w)
  else (inr tt, set_ns (<[p := EDir]> (ns w)) w).

(** Names in a directory, sorted as the NameNode lists them. *)
Definition child_names (n : gmap (list string) Entry) (p : list string) : list string :=
  merge_sort String.le
    (remove_dups (omap (fun kv => if strict_prefix p kv.1 then kv.1 !! List.length p else None)
                       (map_to_list n))).

(** [hdfs.list(p, status=True)]: names with their type. *)
Definition hdfs_list (p : list string) : M (list (string * string)) := fun _ w =>
  if bool_decide (hdfs_kind (ns w) p = Some "DIRECTORY") then
    (inr (map (fun nm => (nm, default EmptyString (hdfs_kind (ns w) (p ++ [nm])%list)))
              (child_names (ns w) p)), w)
  else (inl HdfsError, w).

(** [hdfs.content(p, strict=False)]: [None] when [p] does not exist. *)
Definition hdfs_content (p : list string) : M (option unit) :=
  gets (fun w => match hdfs_kind (ns w) p with Some _ => Some tt | None => None end).

Definition rekey (src dst : list string) (k : list string) : list string :=
  if bool_decide (src `prefix_of` k) then (dst ++ drop (List.length src) k)%list else k.

(** [hdfs.rename(src, dst)]: into [dst] when it is a directory; raises when
    the rename is refused. *)
Definition hdfs_rename (src dst : list string) : M unit := fun e w =>
  let dst' := if bool_decide (hdfs_kind (ns w) dst = Some "DIRECTORY")
              then (dst ++ [default EmptyString (last src)])%list else dst in
  if negb (can_rename e src) then (inl HdfsError, w)
  else match hdfs_kind (ns w) src, hdfs_kind (ns w) dst' with
       | Some _, None =>
           (inr tt, set_ns (list_to_map (map (fun kv => (rekey src dst' kv.1, kv.2))
                                             (map_to_list (ns w)))) w)
       | _, _ => (inl HdfsError, w)
       end.

(** ** The ZooKeeper client ([kazoo])

    [NonBlockingLease(path, duration, identifier)] creates [path], then takes
    the lease unless another identifier holds it and it has not yet expired;
    the lease object is true exactly when it was obtained. *)
Definition zk_exists (path : string) : M bool := gets (fun w => bool_decide (path ∈ zk_nodes w)).

Definition nonblocking_lease (path : string) (duration : nat) (ident : string) : M bool :=
  fun e w =>
    let nodes := {[path]} ∪ zk_nodes w in
    let take_it := (inr true, set_zk nodes (<[path := (ident, now e + duration)]> (zk_leases w)) w) in
    match zk_leases w !! path with
    | Some (holder, end_t) =>
        if negb (String.eqb holder ident) && (now e <? end_t)%nat
        then (inr false, set_zk nodes (zk_leases w) w)
        else take_it
    | None => take_it
    end.

(** ** Local paths and the local filesystem ([os], [os.path]) *)

(** [s.split('/')] *)
Fixpoint split_slash (s : string) : list string :=
  match s with
  | EmptyString => [EmptyString]
  | String c r =>
      if Ascii.eqb c "/" then EmptyString :: split_slash r
      else match split_slash r with
           | x :: xs => String c x :: xs
           | [] => [String c EmptyString]
           end
  end.

Definition starts_with_slash (s : string) : bool :=
  match s with String c _ => Ascii.eqb c "/" | EmptyString => false end.

(** Components of [os.path.realpath(s)] (no symbolic links on the path):
    empty components and ["."] are dropped, [".."] removes the previous component. *)
Definition normalize (cs : list string) : list string :=
  rev (fold_left (fun acc c =>
         if String.eqb c EmptyString || String.eqb c "." then acc
         else if String.eqb c ".." then tail acc
         else c :: acc) cs []).

Definition realpath_comps (cwd_ s : string) : list string :=
  normalize (split_slash (if starts_with_slash s then s else cwd_ +s+ "/" +s+ s)).

Definition render (cs : list string) : string := "/" +s+ String.concat "/" cs.

Definition realpath (cwd_ s : string) : string := render (realpath_comps cwd_ s).

(** [os.path.join(a, b)] *)
Definition ends_with_slash (s : string) : bool :=
  match String.get (String.length s - 1) s with
  | Some c => Ascii.eqb c "/"
  | None => false
  end.

Definition pjoin (a b : string) : string :=
  if starts_with_slash b then b
  else if String.eqb a EmptyString || ends_with_slash a then a +s+ b
  else a +s+ "/" +s+ b.

(** [find_mount_point]: from [realpath(path)], drop the last component
    until [os.path.ismount] holds; ["/"] is always a mount point, which is
    where [dirname] stops. *)
Fixpoint walk_up (ism : string -> bool) (rcs : list string) : string :=
  if ism (render (rev rcs)) then render (rev rcs)
  else match rcs with
       | [] => "/"
       | _ :: rcs' => walk_up ism rcs'
       end.

Definition find_mount_point (path : string) : M string := fun e w =>
  (inr (walk_up (ismount e) (rev (realpath_comps (cwd e) path))), w).

(** A local path stands for the components of its [os.path.realpath];
    the root [[]] is always a directory. *)
Definition lfs_is_dir (w : World) (cs : list string) : bool :=
  bool_decide (cs = [] \/ cs ∈ lfs_dirs w).

Definition lfs_present (w : World) (cs : list string) : bool :=
  lfs_is_dir w cs || bool_decide (cs ∈ lfs_files w).

(** The proper and improper ancestors of a path, shortest first. *)
Definition ancestors (cs : list string) : list (list string) :=
  map (fun n => take n cs) (seq 1 (List.length cs)).

(** [os.path.exists(p)] *)
Definition local_exists (p : string) : M bool := fun e w =>
  (inr (lfs_present w (realpath_comps (cwd e) p)), w).

(** [os.makedirs(p)]: fails when [p] exists or a file stands on its path;
    otherwise creates [p] and its missing ancestors. *)
Definition local_makedirs (p : string) : M unit := fun e w =>
  let cs := realpath_comps (cwd e) p in
  if lfs_present w cs || existsb (fun a => bool_decide (a ∈ lfs_files w)) (ancestors cs)
  then (inl OSError, w)
  else (inr tt, set_lfs (list_to_set (ancestors cs) ∪ lfs_dirs w) (lfs_files w) (links w) w).

(** [os.link(src, dst)]: fails unless [src] is a file, [dst] does not
    exist and the directory of [dst] does. *)
Definition local_link (src dst : string) : M unit := fun e w =>
  let s := realpath_comps (cwd e) src in
  let d := realpath_comps (cwd e) dst in
  if bool_decide (s ∈ lfs_files w) && negb (lfs_present w d) && lfs_is_dir w (removelast d)
  then (inr tt, set_lfs (lfs_dirs w) ({[d]} ∪ lfs_files w) (links w ++ [(src, dst)])%list w)
  else (inl OSError, w).

(** [run_shell_command(cmd)]: the lines the command prints. *)
Definition run_shell_command (cmd : list string) : M (list string) :=
  fun e w => (inr (shell e cmd), w).

(** ** Python dicts of strings and [json]

    A dict is an association list in iteration order; assignment to an
    existing key keeps its position. *)
Definition pydict := list (string * string).

Fixpoint py_set (k v : string) (d : pydict) : pydict :=
  match d with
  | [] => [(k, v)]
  | (k', v') :: d' => if String.eqb k k' then (k, v) :: d' else (k', v') :: py_set k v d'
  end.

Definition dq : ascii := Ascii.ascii_of_nat 34.
Definition bsl : ascii := Ascii.ascii_of_nat 92.

Fixpoint json_escape (s : string) : string :=
  match s with
  | EmptyString => EmptyString
  | String c r =>
      if Ascii.eqb c dq then String bsl (String dq (json_escape r))
      else if Ascii.eqb c bsl then String bsl (String bsl (json_escape r))
      else if Ascii.eqb c nl then String bsl (String "n" (json_escape r))
      else String c (json_escape r)
  end.

Definition json_quote (s : string) : string := String dq (json_escape s +s+ String dq EmptyString).

(** [json.dumps(d)] for a dict of strings. *)
Definition dumps (d : pydict) : string :=
  "{" +s+ String.concat ", " (map (fun kv => json_quote kv.1 +s+ ": " +s+ json_quote kv.2) d) +s+ "}".

Definition is_ws (c : ascii) : bool :=
  Ascii.eqb c " " || Ascii.eqb c nl || Ascii.eqb c (Ascii.ascii_of_nat 9)
  || Ascii.eqb c (Ascii.ascii_of_nat 13).

Fixpoint skip_ws (s : list ascii) : list ascii :=
  match s with
  | c :: r => if is_ws c then skip_ws r else s
  | [] => []
  end.

(** The body of a JSON string after its opening quote. *)
Fixpoint json_str_body (s : list ascii) : option (list ascii * list ascii) :=
  match s with
  | [] => None
  | c :: r =>
      if Ascii.eqb c dq then Some ([], r)
      else if Ascii.eqb c bsl then
        match r with
        | d :: r' =>
            let d' := if Ascii.eqb d "n" then nl else d in
            match json_str_body r' with
            | Some (b, rest) => Some (d' :: b, rest)
            | None => None
            end
        | [] => None
        end
      else match json_str_body r with
           | Some (b, rest) => Some (c :: b, rest)
           | None => None
           end
  end.

Definition json_str (s : list ascii) : option (string * list ascii) :=
  match skip_ws s with
  | c :: r => if Ascii.eqb c dq then
                match json_str_body r with
                | Some (b, rest) => Some (string_of_list_ascii b, rest)
                | None => None
                end
              else None
  | [] => None
  end.

Definition expect (ch : ascii) (s : list ascii) : option (list ascii) :=
  match skip_ws s with
  | c :: r => if Ascii.eqb c ch then Some r else None
  | [] => None
  end.

Fixpoint json_members (fuel : nat) (s : list ascii) (acc : pydict) : option (pydict * list ascii) :=
  match fuel with
  | O => None
  | S f =>
      match json_str s with
      | Some (k, r1) =>
          match expect ":" r1 with
          | Some r2 =>
              match json_str r2 with
              | Some (v, r3) =>
                  let acc' := py_set k v acc in
                  match expect "," r3 with
                  | Some r4 => json_members f r4 acc'
                  | None => match expect "}" r3 with
                            | Some r4 => Some (acc', r4)
                            | None => None
                            end
                  end
              | None => None
              end
          | None => None
          end
      | None => None
      end
  end.

(** [json.loads(s)] for the documents this program writes: an object of
    strings, or [null] ([None]).  Anything else raises [ValueError]; JSON
    values other than strings are outside this model. *)
Definition loads (s : string) : Exn + option pydict :=
  let l := list_ascii_of_string s in
  let finish (d : pydict) (rest : list ascii) :=
    if bool_decide (skip_ws rest = []) then inr (Some d) else inl ValueError in
  match expect "{" l with
  | Some r =>
      match expect "}" r with
      | Some r' => finish [] r'
      | None => match json_members (List.length r) r [] with
                | Some (d, rest) => finish d rest
                | None => inl ValueError
                end
      end
  | None =>
      match skip_ws l with
      | "n" :: "u" :: "l" :: "l" :: rest =>
          if bool_decide (skip_ws rest = []) then inr None else inl ValueError
      | _ => inl ValueError
      end%char
  end.


(** ** The program *)

Section Shred.

Variable conf : Conf.

Abbreviation root := (HDFS_SHRED_PATH conf).

Definition lift {A} (r : Exn + A) : M A := fun _ w => (r, w).

(** [set_status(job_id, component, status)] *)
Definition status_path (job_id component : string) : list string :=
  if String.eqb component "master" then (root ++ ["jobs"; job_id])%list
  else if String.eqb component "data" then (root ++ ["store"; job_id; "status"])%list
  else (root ++ ["store"; job_id; component; "status"])%list.

Definition set_status (job_id component status : string) : M unit :=
  hdfs_write (status_path job_id component) status.

Definition check_hdfs_for_target (target : list string) : M bool :=
  let* k := hdfs_status target in ret (bool_decide (k = Some "FILE")).

Definition init_new_job : M (string * string) :=
  let* e := ask in
  let job_id := uuid e in
  set_status job_id "master" "stage1init" ;;
  set_status job_id "data" "stage1init" ;;
  ret (job_id, "stage1init").

Definition data_path (job_id : string) : list string := (root ++ ["store"; job_id; "data"])%list.

Definition ingest_targets (job_id : string) (target : list string) : M (string * string) :=
  set_status job_id "master" "stage1ingest" ;;
  set_status job_id "data" "stage1ingest" ;;
  hdfs_makedirs (data_path job_id) ;;
  hdfs_rename target (data_path job_id) ;;
  set_status job_id "data" "stage1ingestComplete" ;;
  ret (job_id, "stage1ingestComplete").

Definition finalise_client (job_id : string) : M bool :=
  set_status job_id "master" "stage1complete" ;; ret true.

(** [a in b] for strings *)
Definition str_in (a b : string) : bool :=
  match String.index 0 a b with Some _ => true | None => false end.

(** [client_workflow(passed_args)]: [passed_args] is a Python object given
    by its attributes.  [raise "..."] of a [str] raises [TypeError];
    [exit(0)] ends the invocation successfully. *)
Definition client_workflow (passed_args : gmap string string) : M unit :=
  match passed_args !! "file_to_shred" with
  | None => raise AttributeError
  | Some f =>
      let* e := ask in
      let target := realpath_comps (cwd e) f in
      let* target_exists := check_hdfs_for_target target in
      if negb target_exists then raise TypeError
      else
        let* jr := init_new_job in
        let (job_id, job_status) := jr in
        if negb (str_in "stage1init" job_status) then raise TypeError
        else
          let* ir := ingest_targets job_id target in
          let (job_id', status) := ir in
          if negb (String.eqb status "stage1ingestComplete") then raise TypeError
          else
            let* ready := finalise_client job_id' in
            if ready then ret tt else raise TypeError
  end.

(** The Namespace [parse_args] builds for [--mode client --filename f]. *)
Definition client_args (f : string) : gmap string string :=
  <["mode" := "client"]> (<["filename" := f]> (<["debug" := "False"]> ∅)).

Definition jobs_dir : list string := (root ++ ["jobs"])%list.

Definition get_jobs_by_status (target_status : string) : M (list string) :=
  let* job_dir_exists := hdfs_content jobs_dir in
  match job_dir_exists with
  | None => ret []
  | Some _ =>
      let* dirlist := hdfs_list jobs_dir in
      let* sel := mapM (fun item =>
               if String.eqb item.2 "FILE" then
                 let* job_status := hdfs_read (jobs_dir ++ [item.1])%list in
                 ret (if String.eqb job_status target_status then [item.1] else [])
               else ret []) dirlist in
      ret (List.concat sel)
  end.

Definition get_target_by_jobid (job_id : string) : M (list (list string)) :=
  let* names := hdfs_list (data_path job_id) in
  ret (map (fun nm => (data_path job_id ++ [nm.1])%list) names).

Definition get_fsck_output (target : list string) : M (list string) :=
  run_shell_command ["hdfs"; "fsck"; render target; "-files"; "-blocks"; "-locations"].

Definition worklist_path (job_id worker : string) : list string :=
  (root ++ ["store"; job_id; worker])%list.

(** [{blockfile: "new" for blockfile in blocks}] *)
Definition new_worklist (blocks : list string) : pydict :=
  fold_left (fun d b => py_set b "new" d) blocks [].

Definition lease_ident (worker job_id : string) : string :=
  "Worker [" +s+ worker +s+ "] preparing blocklists for job [" +s+ job_id +s+ "]".

Fixpoint collect_blocklists (targets : list (list string)) (acc : gmap string (list string))
  : M (gmap string (list string)) :=
  match targets with
  | [] => ret acc
  | target :: ts =>
      let* fsck_data := get_fsck_output target in
      let* parsed := lift (parse_blocks_from_fsck fsck_data) in
      collect_blocklists ts (parsed ∪ acc)
  end.

(** [prepare_blocklists(job_id)]; [blocklists.update(x)] is the left-biased
    union [x ∪ blocklists]. *)
Definition prepare_blocklists (job_id : string) : M string :=
  let* e := ask in
  let* lease := nonblocking_lease (ZK_PATH conf +s+ job_id) (WORKER_SLEEP conf)
                  (lease_ident (identity e) job_id) in
  if negb lease then ret "pipped"
  else
    set_status job_id "master" "stage2prepareBlocklist" ;;
    let* targets := get_target_by_jobid job_id in
    let* blocklists := collect_blocklists targets ∅ in
    forM_ (map_to_list blocklists) (fun wb =>
      hdfs_write (worklist_path job_id wb.1) (dumps (new_worklist wb.2))) ;;
    set_status job_id "master" "stage2copyblocks" ;;
    ret "success".

(** The blocklist-preparation loop of [worker_workflow] over the jobs
    listed in status [stage1complete]. *)
Definition discovery_pass (worklist : list string) : M unit :=
  forM_ worklist (fun job_id =>
    let* ex := zk_exists (ZK_PATH conf +s+ job_id) in
    if ex then
      let* result := prepare_blocklists job_id in
      if String.eqb result "success" || String.eqb result "pipped" then ret tt
      else raise TypeError
    else ret tt).

(** The body of the loop over the blocks of one worklist. *)
Definition preserve_block (block : string) (state : string) : M string :=
  if String.eqb state "new" then
    let* block_find_iter := run_shell_command ["find"; "/"; "-name"; block] in
    let found_files := map rstrip_nl block_find_iter in
    match found_files with
    | [this_file] =>
        let* this_file_part := find_mount_point this_file in
        let this_part_shred_dir := pjoin this_file_part (LINUXFS_SHRED_PATH conf) in
        let* ex := local_exists this_part_shred_dir in
        (if ex then ret tt else local_makedirs this_part_shred_dir) ;;
        local_link this_file (pjoin this_part_shred_dir block) ;;
        ret "linked"
    | _ =>
        log_error "Found unexpected number of instances of blockfile on the local OS filesystem." ;;
        ret "finding"
    end
  else ret state.

(** Reading the worklist of this worker for one job:
    [this_job_blocklist = {}], replaced by [loads(...)] when the file
    can be read. *)
Definition read_own_worklist (worker job_id : string) : M (option pydict) :=
  catch_hdfs (let* c := hdfs_read (worklist_path job_id worker) in lift (loads c))
             (ret (Some [])).

Definition preserve_pass (worker : string) (joblist : list string) : M unit :=
  let* tasks := mapM (fun job_id =>
            let* bl := read_own_worklist worker job_id in
            ret (match bl with Some d => [(job_id, d)] | None => [] end)) joblist in
  let tasklist := List.concat tasks in
  match tasklist with
  | [] => ret tt
  | _ =>
      forM_ tasklist (fun jt =>
        let* updated := mapM (fun kv => let* st := preserve_block kv.1 kv.2 in ret (kv.1, st)) jt.2 in
        hdfs_write (worklist_path jt.1 worker) (dumps updated))
  end.

Definition worker_workflow : M unit :=
  let* e := ask in
  let worker_id := identity e in
  let* worklist := get_jobs_by_status "stage1complete" in
  discovery_pass worklist ;;
  let* joblist := get_jobs_by_status "stage2copyblocks" in
  match joblist with
  | [] => ret tt
  | _ => preserve_pass worker_id joblist
  end.

(** [shredder_workflow(args)]: the body is [pass]. *)
Definition shredder_workflow : M unit := ret tt.

End Shred.

(** ** Master status traces and schedules of invocations *)

Definition canonical : list string :=
  ["stage1init"; "stage1ingest"; "stage1ingestComplete"; "stage1complete";
   "stage2prepareBlocklist"; "stage2copyblocks"; "stage2readyForDelete";
   "stage2filesDeleted"; "stage2complete"; "stage3shredding"; "stage3complete"].

Definition master_path (conf : Conf) (job_id : string) : list string :=
  status_path conf job_id "master".

(** The master status tokens written for a job, in order of write. *)
Definition master_trace (conf : Conf) (job_id : string) (l : list (list string * string))
  : list string :=
  map snd (filter (fun pc => pc.1 = master_path conf job_id) l).

(** Consecutive repetitions removed. *)
Fixpoint dedup_adj (l : list string) : list string :=
  match l with
  | [] => []
  | x :: xs =>
      match dedup_adj xs with
      | y :: ys => if String.eqb x y then y :: ys else x :: y :: ys
      | [] => [x]
      end
  end.

Inductive Invocation :=
| IClient (passed_args : gmap string string)
| IWorker
| IShredder.

Definition run_invocation (conf : Conf) (w : World) (ie : Invocation * Env) : World :=
  snd (match ie.1 with
       | IClient a => client_workflow conf a
       | IWorker => worker_workflow conf
       | IShredder => shredder_workflow
       end ie.2 w).

(** A schedule runs its invocations one after the other. *)
Definition run_schedule (conf : Conf) (sched : list (Invocation * Env)) (w : World) : World :=
  fold_left (run_invocation conf) sched w.

Definition client_uuids (sched : list (Invocation * Env)) : list string :=
  omap (fun ie => match ie.1 with IClient _ => Some (uuid ie.2) | _ => None end) sched.

(** ** Concrete configurations, environments and worlds *)

Definition cf : Conf := mkConf [".shred"] "/shred/" 10 ".shred".

Definition empty_world : World := mkWorld ∅ [] ∅ ∅ ∅ ∅ [] [].

Definition with_ns (n : gmap (list string) Entry) : World := set_ns n empty_world.

Definition target_x : list string := ["user"; "alice"; "x"].

Definition w_user : World := with_ns {[ target_x := EFile "payload" ]}.

Definition fsck_block_line (blk : string) (ips : list string) : string :=
  "0. BP-929597290-192.0.0.2-1439573305237:" +s+ blk +s+ "_1001 len=134217728 repl=3 ["
  +s+ String.concat ", " (map (fun ip => dn_prefix +s+ ip +s+ ":50010,DS-1,DISK]") ips)
  +s+ "]" +s+ String nl EmptyString.

(** fsck of [data/a] reports blk_1 on 10.0.0.1 and 10.0.0.2, fsck of
    [data/b] reports blk_2 on 10.0.0.1; find sees one copy of every block
    under /data1. *)
Definition demo_shell (cmd : list string) : list string :=
  match cmd with
  | "hdfs" :: "fsck" :: t :: _ =>
      if String.eqb t "/.shred/store/J1/data/a" then
        ["Connecting to namenode via http://nn:50070"; fsck_block_line "blk_1" ["10.0.0.1"; "10.0.0.2"]]
      else if String.eqb t "/.shred/store/J1/data/b" then
        [fsck_block_line "blk_2" ["10.0.0.1"]]
      else if String.eqb t "/.shred/store/J1/data/x" then
        [fsck_block_line "blk_1" ["10.0.0.1"; "10.0.0.2"]]
      else []
  | "find" :: _ :: _ :: blk :: _ =>
      ["/data1/hdfs/current/finalized/" +s+ blk +s+ String nl EmptyString]
  | _ => []
  end.

Definition env_at (ident uid : string) (t : nat) (rename_ok : bool) : Env :=
  mkEnv ident uid t (fun _ => rename_ok) demo_shell
        (fun p => String.eqb p "/" || String.eqb p "/data1") "/home/alice".

Definition job_store (master : string) (extra : list (list string * Entry))
  : gmap (list string) Entry :=
  list_to_map ([ ([".shred"; "jobs"; "J1"], EFile master);
                 ([".shred"; "store"; "J1"; "status"], EFile "stage1ingestComplete") ] ++ extra)%list.

Definition wl (blocks : pydict) : Entry := EFile (dumps blocks).

(** Job J1 in stage2copyblocks, both participating datanodes linked. *)
Definition w_linked : World :=
  with_ns (job_store "stage2copyblocks"
             [ ([".shred"; "store"; "J1"; "data"; "x"], EFile "payload");
               ([".shred"; "store"; "J1"; "10.0.0.1"], wl [("blk_1", "linked")]);
               ([".shred"; "store"; "J1"; "10.0.0.2"], wl [("blk_1", "linked")]) ]).

(** Job J1 in stage3shredding with a linked block on 10.0.0.1. *)
Definition w_shredding : World :=
  with_ns (job_store "stage3shredding"
             [ ([".shred"; "store"; "J1"; "10.0.0.1"], wl [("blk_1", "linked")]) ]).

(** Job J1 freshly in stage1complete, holding one file. *)
Definition w_stage1 : World :=
  with_ns (job_store "stage1complete" [ ([".shred"; "store"; "J1"; "data"; "x"], EFile "payload") ]).

Definition with_zk_node (path : string) (w : World) : World :=
  set_zk ({[path]} ∪ zk_nodes w) (zk_leases w) w.

(** Job J1 in stage1complete whose data directory holds two files. *)
Definition w_two_targets : World :=
  with_zk_node "/shred/J1"
    (with_ns (job_store "stage1complete"
                [ ([".shred"; "store"; "J1"; "data"; "a"], EFile "payload-a");
                  ([".shred"; "store"; "J1"; "data"; "b"], EFile "payload-b") ])).

(** Job J1 in stage2copyblocks with a worklist for 10.0.0.1 only. *)
Definition w_one_worklist : World :=
  with_ns (job_store "stage2copyblocks"
             [ ([".shred"; "store"; "J1"; "10.0.0.1"], wl [("blk_1", "new")]) ]).

Definition sample_line : string :=
  "0. BP-929597290-192.0.0.2-1439573305237:blk_1073839025_98201 len=134217728 repl=3 [DatanodeInfoWithStorage[172.16.0.80:50010,DS-1,DISK], DatanodeInfoWithStorage[172.16.0.40:50010,DS-2,DISK]]" +s+ String nl EmptyString.

(** ** Effects of computations on the world

    [Post R m]: every run of [m], whatever its outcome, relates the world
    before and the world after by [R]. *)
Definition Post {A} (R : World -> World -> Prop) (m : M A) : Prop :=
  forall e w, R w (snd (m e w)).

(** The HDFS namespace and the write log are untouched. *)
Definition hdfs_same (w w' : World) : Prop := ns w' = ns w /\ wlog w' = wlog w.

(** The master tokens of the completion leader and the shredder. *)
Definition completion_tokens : list string :=
  ["stage2readyForDelete"; "stage2filesDeleted"; "stage2complete"; "stage3shredding";
   "stage3complete"].

(** No write of a completion token and no HDFS entry removed. *)
Definition no_completion (w w' : World) : Prop :=
  (exists fresh, wlog w' = (wlog w ++ fresh)%list /\
                 Forall (fun pc => pc.2 ∉ completion_tokens) fresh) /\
  (forall p, is_Some (ns w !! p) -> is_Some (ns w' !! p)).

(** The master status of job [K] neither written nor changed. *)
Definition nm_at (conf : Conf) (K : string) (w w' : World) : Prop :=
  master_trace conf K (wlog w') = master_trace conf K (wlog w) /\
  ns w' !! master_path conf K = ns w !! master_path conf K.

(** The master status of job [K] not written; it may have disappeared. *)
Definition bf_at (conf : Conf) (K : string) (w w' : World) : Prop :=
  master_trace conf K (wlog w') = master_trace conf K (wlog w) /\
  forall c, ns w' !! master_path conf K = Some (EFile c) -> ns w !! master_path conf K = Some (EFile c).

(** The effect of a run on the master status of job [J]: the tokens [ext]
    are appended to its trace, and the master file, where there is one,
    holds the last of them (or is the one before when none was written);
    every other job [K] is related by [Q K]. *)
Definition job_eff (conf : Conf) (Q : string -> World -> World -> Prop) (J : string)
  (ext : list string) (w w' : World) : Prop :=
  (forall K, K <> J -> Q K w w') /\
  master_trace conf J (wlog w') = (master_trace conf J (wlog w) ++ ext)%list /\
  (forall c, ns w' !! master_path conf J = Some (EFile c) ->
     (ext = [] /\ ns w !! master_path conf J = Some (EFile c)) \/ last ext = Some c).

(** [m], run in [e] from any world, writes a prefix of [toks] to the master
    status of [J], and all of [toks] when it succeeds. *)
Definition master_writes {A} (conf : Conf) (Q : string -> World -> World -> Prop) (J : string)
  (toks : list string) (m : M A) (e : Env) : Prop :=
  forall w, exists ext, ext `prefix_of` toks /\
    (forall a, (m e w).1 = inr a -> ext = toks) /\ job_eff conf Q J ext w (m e w).2.

(** [m], run in [e] from any world, writes a prefix of [toks] to the master
    status of [J], whatever its outcome. *)
Definition master_may_write {A} (conf : Conf) (Q : string -> World -> World -> Prop) (J : string)
  (toks : list string) (m : M A) (e : Env) : Prop :=
  forall w, exists ext, ext `prefix_of` toks /\ job_eff conf Q J ext w (m e w).2.

(** No master status written or changed. *)
Definition all_nm (conf : Conf) (w w' : World) : Prop := forall K, nm_at conf K w w'.

(** The master tokens the program writes, in the order it writes them. *)
Definition written_path : list string :=
  ["stage1init"; "stage1ingest"; "stage1complete"; "stage2prepareBlocklist"; "stage2copyblocks"].

(** The invariant of sequential schedules, [used] being the job ids of the
    clients run so far. *)
Definition sched_inv (conf : Conf) (used : list string) (w : World) : Prop :=
  forall K,
    master_trace conf K (wlog w) `prefix_of` written_path /\
    (master_trace conf K (wlog w) <> [] -> K ∈ used) /\
    (forall c, ns w !! master_path conf K = Some (EFile c) -> last (master_trace conf K (wlog w)) = Some c).

(** Job J1 in stage2copyblocks whose worklist for 10.0.0.1 holds a block
    left in state finding by an earlier pass. *)
Definition w_finding : World :=
  with_ns (job_store "stage2copyblocks"
             [ ([".shred"; "store"; "J1"; "10.0.0.1"], wl [("blk_1", "finding")]) ]).

(** Job J1 as in [w_linked], with the block file that find reports for
    blk_1 present on the local disk of 10.0.0.1. *)
Definition w_block_on_disk : World :=
  set_lfs ∅ {[ ["data1"; "hdfs"; "current"; "finalized"; "blk_1"] ]} [] w_linked.

(** A datanode on which find reports two copies of every block. *)
Definition env_two_copies : Env :=
  mkEnv "10.0.0.1" "u" 0 (fun _ => true)
        (fun cmd => match cmd with
                    | "find" :: _ :: _ :: blk :: _ =>
                        ["/data1/a/" +s+ blk +s+ String nl EmptyString;
                         "/data2/b/" +s+ blk +s+ String nl EmptyString]
                    | _ => []
                    end)
        (fun p => String.eqb p "/") "/".

(** The arguments of a client asked to shred /user/alice/x. *)
Definition shred_x_args : gmap string string := <["file_to_shred" := "/user/alice/x"]> ∅.

(** Job J1 submitted by a client from [w_user], with its ZooKeeper node
    present. *)
Definition w_submitted : World :=
  with_zk_node "/shred/J1"
    (snd (client_workflow cf shred_x_args (env_at "10.0.0.9" "J1" 0 true) w_user)).

(** Two workers interleaved: worker 10.0.0.2 lists the jobs in
    stage1complete; worker 10.0.0.1 then runs in full, at minute 20; then
    10.0.0.2, at minute 35, after the lease of 10.0.0.1 has expired, runs
    its discovery pass over the list it read before. *)
Definition w_race : World :=
  let eB := env_at "10.0.0.2" "B" 35 true in
  let (listed, w1) := get_jobs_by_status cf "stage1complete" eB w_submitted in
  let w2 := snd (worker_workflow cf (env_at "10.0.0.1" "A" 20 true) w1) in
  match listed with
  | inr jobs => snd (discovery_pass cf jobs eB w2)
  | inl _ => w2
  end.

(** ** Lines of an fsck report

    A report line is either some other text, or a block line in the format
    of Hadoop's [fsck -files -blocks -locations]:
    [idx. pool:blk_gen info [DatanodeInfoWithStorage[ip:rest], ...]]. *)
Fixpoint has_char (c : ascii) (s : string) : bool :=
  match s with
  | EmptyString => false
  | String d r => Ascii.eqb d c || has_char c r
  end.

(** A file name: non-empty, no ['/'], neither ["."] nor [".."]. *)
Definition plain_name (b : string) : Prop :=
  b <> "" /\ b <> "." /\ b <> ".." /\ has_char "/" b = false.

(** The path [os.path.realpath] resolves, before splitting. *)
Definition absolute (c s : string) : string := if starts_with_slash s then s else c +s+ "/" +s+ s.

Inductive FsckLine :=
| OtherLine (text : string)
| BlockLine (idx pool blk gen info : string) (replicas : list (string * string)).

Definition dn_entry (d : string * string) : string := dn_prefix +s+ d.1 +s+ ":" +s+ d.2 +s+ "]".

Definition render_fsck_line (l : FsckLine) : string :=
  match l with
  | OtherLine t => t
  | BlockLine idx pool blk gen info reps =>
      idx +s+ ". " +s+ pool +s+ ":" +s+ blk +s+ "_" +s+ gen +s+ " " +s+ info +s+ " ["
      +s+ String.concat ", " (map dn_entry reps) +s+ "]" +s+ String nl EmptyString
  end.

(** A replica entry [ip:rest]: the IP holds no [':'], neither part a
    [']'] or a newline. *)
Definition dn_ok (d : string * string) : bool :=
  negb (has_char ":" d.1 || has_char "]" d.1 || has_char nl d.1 || has_char "]" d.2 || has_char nl d.2).

(** Other lines are non-empty and do not begin with a digit; in a block
    line the fields hold none of the separators around them. *)
Definition wf_fsck_line (l : FsckLine) : bool :=
  match l with
  | OtherLine t => match t with String c _ => negb (is_digit c) | EmptyString => false end
  | BlockLine idx pool blk gen info reps =>
      match idx with String c _ => is_digit c | EmptyString => false end &&
      negb (has_char ":" idx || has_char "[" idx || has_char ":" pool || has_char "[" pool) &&
      negb (has_char " " blk || has_char nl blk || has_char "[" blk) &&
      negb (has_char " " gen || has_char nl gen || has_char "[" gen || has_char "_" gen) &&
      negb (has_char "[" info) &&
      forallb dn_ok reps
  end.

(** What the spec reads from a report: for every block line, the block id
    (before the final ['_']) once per replica datanode (its IP). *)
Definition fsck_contributions (ls : list FsckLine) : list (string * string) :=
  List.concat (map (fun l => match l with
                             | OtherLine _ => []
                             | BlockLine _ _ blk _ _ reps => map (fun d => (d.1, blk)) reps
                             end) ls).

Definition missing_block_line : string :=
  "0. BP-929597290-192.0.0.2-1439573305237:blk_1073839026_98202 len=134217728 MISSING!" +s+ String nl EmptyString.

Definition hadoop_warn_line : string :=
  "16/05/03 10:15:42 WARN util.NativeCodeLoader: Unable to load native-hadoop library for your platform... using builtin-java classes where applicable" +s+ String nl EmptyString.

(** A block line of a report, and the same line indented by one space. *)
Definition sample_block : FsckLine :=
  BlockLine "0" "BP-929597290-192.0.0.2-1439573305237" "blk_1073839025" "98201"
            "len=134217728 repl=2"
            [("172.16.0.80", "50010,DS-1,DISK"); ("172.16.0.40", "50010,DS-2,DISK")].

Definition indented_block_line : string := String " " (render_fsck_line sample_block).

Definition sample_report : list FsckLine :=
  [OtherLine ("Connecting to namenode via http://nn:50070/fsck" +s+ String nl EmptyString);
   sample_block;
   OtherLine ("Status: HEALTHY" +s+ String nl EmptyString)].

(** ** Jobs not yet in the namespace *)

(** Nothing of job [J] is in the HDFS namespace: no entry at or below its
    master status or its store directory, and only directories on the way
    to them. *)
Definition job_fresh (conf : Conf) (J : string) (n : gmap (list string) Entry) : Prop :=
  forall k x, n !! k = Some x ->
    ~ (HDFS_SHRED_PATH conf ++ ["jobs"; J])%list `prefix_of` k /\
    ~ (HDFS_SHRED_PATH conf ++ ["store"; J])%list `prefix_of` k /\
    (k `prefix_of` (HDFS_SHRED_PATH conf ++ ["jobs"])%list \/
     k `prefix_of` (HDFS_SHRED_PATH conf ++ ["store"])%list -> x = EDir).

(** [n'] is [n] with files written at the master and data status of [J]. *)
Definition status_grown (conf : Conf) (J : string) (n n' : gmap (list string) Entry) : Prop :=
  forall k x, n' !! k = Some x ->
    n !! k = Some x \/
    ((k = master_path conf J \/ k = status_path conf J "data") /\ exists c, x = EFile c).

(** The three paths of a job a client run creates: its master status
    [jobs/J], its data status [store/J/status] and its data directory
    [store/J/data]. *)
Definition job_path_shape (a : string) (t : list string) : Prop :=
  (a = "jobs" /\ t = []) \/ (a = "store" /\ (t = ["status"] \/ t = ["data"])).

(** * Proofs *)

(** ** Generic rules for [Post] *)

Section PostRules.

Variable R : World -> World -> Prop.
Hypothesis R_same : forall w w', hdfs_same w w' -> R w w'.
Hypothesis R_trans : forall w1 w2 w3, R w1 w2 -> R w2 w3 -> R w1 w3.

Lemma R_refl w : R w w.
Proof. apply R_same. split; reflexivity. Qed.

Lemma post_unchanged {A} (m : M A) : (forall e w, snd (m e w) = w) -> Post R m.
Proof. intros H e w. rewrite H. apply R_refl. Qed.

Lemma post_ret {A} (x : A) : Post R (ret x).
Proof. apply post_unchanged. reflexivity. Qed.

Lemma post_raise {A} ex : Post R (@raise A ex).
Proof. apply post_unchanged. reflexivity. Qed.

Lemma post_lift {A} (r : Exn + A) : Post R (lift r).
Proof. apply post_unchanged. reflexivity. Qed.

Lemma post_bind {A B} (m : M A) (f : A -> M B) :
  Post R m -> (forall a, Post R (f a)) -> Post R (bindM m f).
Proof.
  intros Hm Hf e w. unfold bindM.
  specialize (Hm e w). destruct (m e w) as [[ex|a] w1]; simpl in *; [exact Hm|].
  eapply R_trans; [exact Hm|apply Hf].
Qed.

Lemma post_catch {A} (m h : M A) : Post R m -> Post R h -> Post R (catch_hdfs m h).
Proof.
  intros Hm Hh e w. unfold catch_hdfs.
  specialize (Hm e w). destruct (m e w) as [[[]|a] w1]; simpl in *; try exact Hm.
  eapply R_trans; [exact Hm|apply Hh].
Qed.

Lemma post_mapM {A B} (f : A -> M B) l : (forall x, Post R (f x)) -> Post R (mapM f l).
Proof.
  intros Hf. induction l as [|x l IH]; simpl.
  - apply post_ret.
  - apply post_bind; [apply Hf|]. intros. apply post_bind; [exact IH|]. intros. apply post_ret.
Qed.

Lemma post_forM {A} l (f : A -> M unit) : (forall x, Post R (f x)) -> Post R (forM_ l f).
Proof.
  intros Hf. induction l as [|x l IH]; simpl.
  - apply post_ret.
  - apply post_bind; [apply Hf|]. intros. exact IH.
Qed.

Lemma post_side {A} (m : M A) : (forall e w, hdfs_same w (snd (m e w))) -> Post R m.
Proof. intros H e w. apply R_same, H. Qed.

Ltac side := apply post_side; intros ??; repeat (case_match || simpl); split; reflexivity.

Lemma post_ask : Post R ask.
Proof. unfold ask. side. Qed.
Lemma post_hdfs_read p : Post R (hdfs_read p).
Proof. unfold hdfs_read. side. Qed.
Lemma post_hdfs_list p : Post R (hdfs_list p).
Proof. unfold hdfs_list. side. Qed.
Lemma post_hdfs_content p : Post R (hdfs_content p).
Proof. unfold hdfs_content. side. Qed.
Lemma post_hdfs_status p : Post R (hdfs_status p).
Proof. unfold hdfs_status. side. Qed.
Lemma post_zk_exists p : Post R (zk_exists p).
Proof. unfold zk_exists. side. Qed.
Lemma post_lease p d i : Post R (nonblocking_lease p d i).
Proof. unfold nonblocking_lease. side. Qed.
Lemma post_run_shell cmd : Post R (run_shell_command cmd).
Proof. unfold run_shell_command. side. Qed.
Lemma post_find_mount_point p : Post R (find_mount_point p).
Proof. unfold find_mount_point. side. Qed.
Lemma post_local_exists p : Post R (local_exists p).
Proof. unfold local_exists. side. Qed.
Lemma post_local_makedirs p : Post R (local_makedirs p).
Proof. unfold local_makedirs. side. Qed.
Lemma post_local_link s d : Post R (local_link s d).
Proof. unfold local_link. side. Qed.
Lemma post_log_error msg : Post R (log_error msg).
Proof. unfold log_error. side. Qed.

End PostRules.

Ltac post_auto :=
  repeat (intros; first
    [ assumption
    | simple eapply post_bind; try assumption
    | simple eapply post_catch; try assumption
    | simple eapply post_mapM; try assumption
    | simple eapply post_forM; try assumption
    | simple eapply post_ret; try assumption
    | simple eapply post_raise; try assumption
    | simple eapply post_lift; try assumption
    | simple eapply post_ask; try assumption
    | simple eapply post_hdfs_read; try assumption
    | simple eapply post_hdfs_list; try assumption
    | simple eapply post_hdfs_content; try assumption
    | simple eapply post_hdfs_status; try assumption
    | simple eapply post_zk_exists; try assumption
    | simple eapply post_lease; try assumption
    | simple eapply post_run_shell; try assumption
    | simple eapply post_find_mount_point; try assumption
    | simple eapply post_local_exists; try assumption
    | simple eapply post_local_makedirs; try assumption
    | simple eapply post_local_link; try assumption
    | simple eapply post_log_error; try assumption
    | match goal with
      | |- Post _ (if ?b then _ else _) => destruct b
      | |- Post _ (match ?x with _ => _ end) => destruct x
      end ]).

(** ** The worker's reading and local steps *)

Section WorkerRules.

Variable R : World -> World -> Prop.
Hypothesis R_same : forall w w', hdfs_same w w' -> R w w'.
Hypothesis R_trans : forall w1 w2 w3, R w1 w2 -> R w2 w3 -> R w1 w3.
Variable conf : Conf.
Hypothesis R_wl : forall J W d, Post R (hdfs_write (worklist_path conf J W) (dumps d)).

Lemma post_get_jobs s : Post R (get_jobs_by_status conf s).
Proof. unfold get_jobs_by_status. post_auto. Qed.

Lemma post_get_target J : Post R (get_target_by_jobid conf J).
Proof. unfold get_target_by_jobid. post_auto. Qed.

Lemma post_collect ts acc : Post R (collect_blocklists ts acc).
Proof.
  revert acc. induction ts as [|t ts IH]; intros acc; simpl; unfold get_fsck_output; post_auto.
  intros. apply IH.
Qed.

Lemma post_read_own_worklist W J : Post R (read_own_worklist conf W J).
Proof. unfold read_own_worklist. post_auto. Qed.

Lemma post_preserve_block b st : Post R (preserve_block conf b st).
Proof. unfold preserve_block. post_auto. Qed.

Lemma post_preserve_pass W l : Post R (preserve_pass conf W l).
Proof.
  unfold preserve_pass. post_auto.
  - apply post_read_own_worklist.
  - apply post_preserve_block.
  - intros. apply R_wl.
Qed.

End WorkerRules.

(** ** The worker never writes a completion token *)

Lemma no_completion_same w w' : hdfs_same w w' -> no_completion w w'.
Proof.
  intros [Hn Hl]. split.
  - exists []. rewrite Hl, app_nil_r. split; [reflexivity|constructor].
  - intros p. rewrite Hn. tauto.
Qed.

Lemma no_completion_trans w1 w2 w3 :
  no_completion w1 w2 -> no_completion w2 w3 -> no_completion w1 w3.
Proof.
  intros [[f1 [H1 F1]] D1] [[f2 [H2 F2]] D2]. split.
  - exists (f1 ++ f2)%list. rewrite H2, H1, app_assoc. split; [reflexivity|].
    apply Forall_app. split; assumption.
  - intros p Hp. apply D2, D1, Hp.
Qed.

Lemma dumps_not_completion d : dumps d ∉ completion_tokens.
Proof.
  unfold dumps, completion_tokens. simpl.
  intros Hin. repeat (apply elem_of_cons in Hin as [Hin|Hin]; [discriminate Hin|]).
  apply elem_of_nil in Hin. exact Hin.
Qed.

Lemma post_write_nc p c : c ∉ completion_tokens -> Post no_completion (hdfs_write p c).
Proof.
  intros Hc e w. unfold hdfs_write.
  destruct (existsb _ _); [apply no_completion_same; split; reflexivity|].
  case_bool_decide; [apply no_completion_same; split; reflexivity|].
  cbn [snd ns wlog set_wlog set_ns]. split.
  - exists [(p, c)]. split; [reflexivity|]. constructor; [exact Hc|constructor].
  - intros q Hq. unfold set_wlog, set_ns; simpl. rewrite lookup_insert_is_Some'. right. exact Hq.
Qed.

Lemma post_prepare_nc conf J : Post no_completion (prepare_blocklists conf J).
Proof.
  pose proof no_completion_same as Rs. pose proof no_completion_trans as Rt.
  unfold prepare_blocklists, set_status. post_auto.
  - apply post_write_nc. unfold completion_tokens. set_solver.
  - apply post_get_target; assumption.
  - apply post_collect; assumption.
  - intros. apply post_write_nc, dumps_not_completion.
  - apply post_write_nc. unfold completion_tokens. set_solver.
Qed.

Lemma post_worker_nc conf : Post no_completion (worker_workflow conf).
Proof.
  pose proof no_completion_same as Rs. pose proof no_completion_trans as Rt.
  assert (Hwl : forall J W d, Post no_completion (hdfs_write (worklist_path conf J W) (dumps d))).
  { intros. apply post_write_nc, dumps_not_completion. }
  unfold worker_workflow, discovery_pass. post_auto.
  - apply post_get_jobs; assumption.
  - apply post_prepare_nc.
  - apply post_get_jobs; assumption.
  - apply post_preserve_pass; assumption.
Qed.

(** ** Claims settled by the program's behaviour *)

(** Claim C1 (the completion leader): no run of [worker_workflow], from any
    world, writes any of stage2readyForDelete, stage2filesDeleted,
    stage2complete, stage3shredding (or stage3complete) nor removes an HDFS
    entry; the completion leader exists only as comments.  On job J1 in
    stage2copyblocks whose two worklists report every block linked, a worker
    run leaves the master at stage2copyblocks, the data file in place, and
    writes no master token. *)
Theorem worker_has_no_completion_leader :
  (forall conf e w, no_completion w (snd (worker_workflow conf e w))) /\
  (let w' := snd (worker_workflow cf (env_at "10.0.0.1" "u" 0 true) w_linked) in
   ns w' !! master_path cf "J1" = Some (EFile "stage2copyblocks") /\
   ns w' !! [".shred"; "store"; "J1"; "data"; "x"] = Some (EFile "payload") /\
   master_trace cf "J1" (wlog w') = []).
Proof.
  split.
  - intros conf e w. apply post_worker_nc.
  - vm_compute. repeat split.
Qed.

(** Claim C2 (the shredder): [shredder_workflow] is [pass]: from every
    world it succeeds and changes nothing, so no worklist entry is marked
    shredding or shredded and no stage3complete status is written. *)
Theorem shredder_workflow_is_pass :
  forall e w, shredder_workflow e w = (inr tt, w).
Proof. reflexivity. Qed.

(** Claim C3 (lease attempt per stage1complete job): the worker only tries
    the lease when the ZooKeeper node [ZK_PATH ++ job_id] already exists,
    and nothing but the lease itself creates that node.  After a client
    run has created job J1 (master stage1complete), a worker run takes no
    lease and writes nothing; with the node present the same worker would
    have run the discovery pass. *)
Theorem worker_skips_job_without_zk_node :
  let args := <["file_to_shred" := "/user/alice/x"]> (∅ : gmap string string) in
  let w1 := snd (client_workflow cf args (env_at "10.0.0.9" "J1" 0 true) w_user) in
  let w2 := snd (worker_workflow cf (env_at "10.0.0.1" "u" 0 true) w1) in
  ns w1 !! master_path cf "J1" = Some (EFile "stage1complete") /\
  w2 = w1 /\
  ns (snd (worker_workflow cf (env_at "10.0.0.1" "u" 0 true) (with_zk_node "/shred/J1" w1)))
     !! master_path cf "J1" = Some (EFile "stage2copyblocks").
Proof. vm_compute. repeat split. Qed.

(** Claim C4 (worklists cover the blocks of all target files): the block
    lists of the target files are merged with [dict.update], so a datanode
    holding replicas of blocks of two target files gets a worklist with the
    blocks of the last file only: here fsck of data/a reports blk_1 on
    10.0.0.1 and 10.0.0.2 and fsck of data/b reports blk_2 on 10.0.0.1, yet
    the worklist of 10.0.0.1 lists only blk_2. *)
Theorem worklist_drops_blocks_of_earlier_targets :
  let e := env_at "10.0.0.1" "u" 0 true in
  parse_blocks_from_fsck (shell e ["hdfs"; "fsck"; "/.shred/store/J1/data/a"; "-files"; "-blocks"; "-locations"])
    = inr (<["10.0.0.1" := ["blk_1"]]> (<["10.0.0.2" := ["blk_1"]]> ∅)) /\
  let r := prepare_blocklists cf "J1" e w_two_targets in
  r.1 = inr "success" /\
  ns r.2 !! worklist_path cf "J1" "10.0.0.1" = Some (EFile (dumps [("blk_2", "new")])).
Proof. vm_compute. repeat split. Qed.

(** Claim C6 (no worklist for a worker without replicas): a worker with no
    worklist of its own under a stage2copyblocks job keeps the empty dict
    [{}] as its blocklist and writes it back, creating the worklist file
    [{root}/store/J1/10.0.0.2] that did not exist. *)
Theorem worker_without_worklist_creates_one :
  ns w_one_worklist !! worklist_path cf "J1" "10.0.0.2" = None /\
  let r := worker_workflow cf (env_at "10.0.0.2" "u" 0 true) w_one_worklist in
  r.1 = inr tt /\
  ns r.2 !! worklist_path cf "J1" "10.0.0.2" = Some (EFile (dumps [])).
Proof. vm_compute. repeat split. Qed.

(** Claim C9 (client validation of the target): the client reads
    [passed_args.file_to_shred], but the namespace built by [parse_args]
    for [--mode client --filename f] has no such attribute, so every client
    invocation raises AttributeError before looking at the target, even for
    an existing regular file, and creates no job. *)
Theorem client_rejects_existing_file :
  client_workflow cf (client_args "/user/alice/x") (env_at "10.0.0.9" "J1" 0 true) w_user
    = (inl AttributeError, w_user) /\
  ns w_user !! target_x = Some (EFile "payload").
Proof. vm_compute. split; reflexivity. Qed.

(** ** The preserve pass *)

Lemma app_eq_snoc {A} (a b s : list A) x :
  (a ++ b = s ++ [x])%list -> b = [] \/ exists b', b = (b' ++ [x])%list /\ (a ++ b')%list = s.
Proof.
  destruct b as [|y b'] using rev_ind; [left; reflexivity|]. intros H. right.
  rewrite app_assoc in H. apply app_inj_tail in H as [H1 H2]. subst. eauto.
Qed.

(** [walk_up] returns the longest prefix of the path that is a mount
    point, or ["/"]. *)
Lemma walk_up_spec ism rcs :
  exists pre suf, rev rcs = (pre ++ suf)%list /\ walk_up ism rcs = render pre /\
    (ism (render pre) = true \/ pre = []) /\
    forall a c, suf = (a ++ c)%list -> a <> [] -> ism (render (pre ++ a)) = false.
Proof.
  induction rcs as [|x r IH]; simpl.
  - exists [], []. destruct (ism (render [])) eqn:E; simpl; repeat split; auto;
      intros a c Hs Ha; symmetry in Hs; apply app_eq_nil in Hs as []; contradiction.
  - destruct (ism (render (rev r ++ [x]))) eqn:E.
    + exists (rev r ++ [x])%list, []. rewrite app_nil_r. repeat split; auto.
      intros a c Hs Ha. symmetry in Hs. apply app_eq_nil in Hs as []. contradiction.
    + destruct IH as (pre & suf & Hr & Hw & Hm & Hmax).
      exists pre, (suf ++ [x])%list. rewrite Hr, app_assoc. repeat split; auto.
      intros a c Hs Ha. destruct (app_eq_snoc a c suf x (eq_sym Hs)) as [->|(c' & -> & Hac)].
      * rewrite app_nil_r in Hs. rewrite <- Hs, app_assoc, <- Hr. exact E.
      * apply (Hmax a c'); auto.
Qed.

Lemma find_mount_point_spec f e w :
  exists pre suf, realpath_comps (cwd e) f = (pre ++ suf)%list /\
    find_mount_point f e w = (inr (render pre), w) /\
    (ismount e (render pre) = true \/ pre = []) /\
    forall a c, suf = (a ++ c)%list -> a <> [] -> ismount e (render (pre ++ a)) = false.
Proof.
  destruct (walk_up_spec (ismount e) (rev (realpath_comps (cwd e) f)))
    as (pre & suf & Hr & Hw & Hm & Hmax).
  rewrite rev_involutive in Hr.
  exists pre, suf. unfold find_mount_point. rewrite Hw. auto.
Qed.

Lemma str_app_assoc a b c : (a +s+ b) +s+ c = a +s+ (b +s+ c).
Proof. induction a as [|x a IH]; [reflexivity|]. exact (f_equal (String x) IH). Qed.

Lemma split_slash_nonempty s : split_slash s <> [].
Proof. induction s as [|c s IH]; simpl; [discriminate|]. destruct (Ascii.eqb c "/"); [discriminate|].
  destruct (split_slash s); discriminate. Qed.

Lemma split_slash_sep a r : split_slash (a +s+ String "/" r) = (split_slash a ++ split_slash r)%list.
Proof.
  induction a as [|c a IH]; [reflexivity|]. change (String c a +s+ String "/" r) with (String c (a +s+ String "/" r)).
  cbn [split_slash]. rewrite IH.
  destruct (Ascii.eqb c "/"); [reflexivity|].
  pose proof (split_slash_nonempty a) as Hn. destruct (split_slash a); [congruence|reflexivity].
Qed.

Lemma split_slash_plain b : has_char "/" b = false -> split_slash b = [b].
Proof.
  induction b as [|c b IH]; simpl; [reflexivity|]. intros H. apply orb_false_iff in H as [H1 H2].
  rewrite IH by exact H2. rewrite H1. reflexivity.
Qed.

Lemma normalize_snoc xs b : plain_name b -> normalize (xs ++ [b]) = (normalize xs ++ [b])%list.
Proof.
  intros (H1 & H2 & H3 & _). unfold normalize. rewrite fold_left_app. cbn [fold_left].
  rewrite (proj2 (String.eqb_neq b "") H1), (proj2 (String.eqb_neq b ".") H2),
          (proj2 (String.eqb_neq b "..") H3). reflexivity.
Qed.

Lemma normalize_snoc_empty xs : normalize (xs ++ [""]) = normalize xs.
Proof. unfold normalize. rewrite fold_left_app. reflexivity. Qed.

Lemma ends_with_slash_split s : ends_with_slash s = true -> exists d, s = d +s+ "/".
Proof.
  unfold ends_with_slash. induction s as [|c s IH]; [discriminate|].
  destruct s as [|c' s'].
  - simpl. intros H. apply Ascii.eqb_eq in H as ->. exists "". reflexivity.
  - intros H. destruct IH as [d Hd].
    + cbn [String.length] in H |- *. replace (S (S (String.length s')) - 1) with (S (S (String.length s') - 1)) in H by lia.
      exact H.
    + exists (String c d). rewrite Hd. reflexivity.
Qed.

Lemma starts_with_slash_app a t : a <> "" -> starts_with_slash (a +s+ t) = starts_with_slash a.
Proof. destruct a; [congruence|reflexivity]. Qed.

Lemma absolute_app c a t : a <> "" -> absolute c (a +s+ t) = absolute c a +s+ t.
Proof.
  intros Ha. unfold absolute. rewrite starts_with_slash_app by exact Ha.
  destruct (starts_with_slash a); [reflexivity|]. rewrite !str_app_assoc. reflexivity.
Qed.

Lemma realpath_comps_abs c s : realpath_comps c s = normalize (split_slash (absolute c s)).
Proof. reflexivity. Qed.

Lemma realpath_comps_pjoin c dir b :
  dir <> "" -> plain_name b ->
  realpath_comps c (pjoin dir b) = (realpath_comps c dir ++ [b])%list.
Proof.
  intros Hd Hb. pose proof Hb as (Hb0 & _ & _ & Hb4).
  assert (Hs : starts_with_slash b = false).
  { destruct b as [|x b]; [congruence|]. simpl in Hb4 |- *. apply orb_false_iff in Hb4 as [E _]. exact E. }
  unfold pjoin. rewrite Hs.
  destruct (String.eqb_spec dir "") as [->|_]; [congruence|]. cbn [orb].
  rewrite !realpath_comps_abs.
  destruct (ends_with_slash dir) eqn:Ee.
  - destruct (ends_with_slash_split _ Ee) as [d ->].
    rewrite absolute_app by exact Hd.
    assert (E2 : exists A, absolute c (d +s+ "/") = A +s+ "/").
    { unfold absolute. destruct (starts_with_slash (d +s+ "/")); [eauto|].
      exists (c +s+ "/" +s+ d). rewrite !str_app_assoc. reflexivity. }
    destruct E2 as [A ->]. rewrite !str_app_assoc. cbn [String.append].
    change ("/" +s+ b) with (String "/" b). change (A +s+ "/") with (A +s+ String "/" "").
    rewrite (split_slash_sep A b), (split_slash_sep A ""), (split_slash_plain b Hb4). cbn [split_slash].
    rewrite normalize_snoc by exact Hb. rewrite normalize_snoc_empty. reflexivity.
  - rewrite (absolute_app c dir ("/" +s+ b) Hd). change ("/" +s+ b) with (String "/" b).
    rewrite split_slash_sep, (split_slash_plain b Hb4).
    apply normalize_snoc, Hb.
Qed.

Lemma walk_up_nonempty ism rcs : walk_up ism rcs <> "".
Proof.
  induction rcs as [|x rcs IH]; cbn [walk_up]; destruct (ism _); try exact IH;
    unfold render; cbn [String.append]; discriminate.
Qed.

Lemma pjoin_nonempty a b : a <> "" -> pjoin a b <> "".
Proof.
  intros Ha. unfold pjoin. destruct (starts_with_slash b) eqn:E.
  - destruct b; [discriminate|congruence].
  - destruct (String.eqb_spec a ""); [contradiction|]. destruct a; [congruence|].
    destruct (ends_with_slash _); discriminate.
Qed.

Lemma elem_of_ancestors a cs :
  a ∈ ancestors cs <-> exists n, 1 <= n <= List.length cs /\ a = take n cs.
Proof.
  unfold ancestors. rewrite list_elem_of_In, in_map_iff. split.
  - intros (n & <- & Hn). apply in_seq in Hn. exists n. split; [lia|reflexivity].
  - intros (n & Hn & ->). exists n. split; [reflexivity|]. apply in_seq. lia.
Qed.

Lemma self_in_ancestors cs : cs <> [] -> cs ∈ ancestors cs.
Proof.
  intros H. apply elem_of_ancestors. exists (List.length cs). rewrite take_ge by lia.
  split; [|reflexivity]. destruct cs; [congruence|simpl; lia].
Qed.

Lemma snoc_not_in_ancestors cs b : (cs ++ [b])%list ∉ ancestors cs.
Proof.
  rewrite elem_of_ancestors. intros (n & Hn & E).
  apply (f_equal (@List.length string)) in E. rewrite length_app, length_take in E. simpl in E. lia.
Qed.

Lemma local_makedirs_ok p e w :
  let cs := realpath_comps (cwd e) p in
  lfs_present w cs = false -> (forall n, 1 <= n -> take n cs ∉ lfs_files w) ->
  local_makedirs p e w =
    (inr tt, set_lfs (list_to_set (ancestors cs) ∪ lfs_dirs w) (lfs_files w) (links w) w).
Proof.
  intros cs Hp Ht. unfold local_makedirs. fold cs. rewrite Hp. simpl.
  replace (existsb _ _) with false; [reflexivity|]. symmetry.
  apply not_true_iff_false. rewrite existsb_exists. intros (a & Ha & Hf).
  apply bool_decide_eq_true_1 in Hf. apply list_elem_of_In, elem_of_ancestors in Ha.
  destruct Ha as (n & Hn & ->). apply (Ht n); [lia|exact Hf].
Qed.

Lemma local_makedirs_file_on_path p e w n :
  let cs := realpath_comps (cwd e) p in
  lfs_present w cs = false -> 1 <= n -> take n cs ∈ lfs_files w ->
  local_makedirs p e w = (inl OSError, w).
Proof.
  intros cs Hp Hn Hf. unfold local_makedirs. fold cs. rewrite Hp. simpl.
  replace (existsb _ _) with true; [reflexivity|]. symmetry.
  apply existsb_exists. exists (take (Nat.min n (List.length cs)) cs). split.
  - apply list_elem_of_In, elem_of_ancestors. exists (Nat.min n (List.length cs)). split; [|reflexivity].
    destruct (decide (n <= List.length cs)).
    + lia.
    + rewrite take_ge in Hf by lia. unfold lfs_present in Hp.
      rewrite (bool_decide_eq_true_2 _ Hf), orb_true_r in Hp. discriminate.
  - apply bool_decide_eq_true_2. destruct (decide (n <= List.length cs)).
    + rewrite Nat.min_l by lia. exact Hf.
    + rewrite Nat.min_r by lia. rewrite take_ge in * by lia. exact Hf.
Qed.

(** Claim C5 (per-block transitions, as the code has them): in a preserve
    pass a block in any state other than new keeps its state, so a block
    in finding is never retried; for a new block whose find output has
    any number of lines but one, the block is left in finding with an
    error logged.  When find prints one line [f], [mount] is the longest
    prefix of [realpath f] that is a mount point, and the block id is a
    plain file name, the block becomes linked, [f] being hard-linked as
    [{mount}/{LINUXFS_SHRED_PATH}/{block}] (the shred directory created
    with its ancestors when missing), exactly when [f] is a file, the link
    target does not exist, and the shred directory is a directory or is
    missing with no file on its path.  Otherwise the pass raises OSError.
    The state linking is never stored. *)
Theorem preserve_block_transitions conf b e w :
  let found := map rstrip_nl (shell e ["find"; "/"; "-name"; b]) in
  (forall st, st <> "new" -> preserve_block conf b st e w = (inr st, w)) /\
  (List.length found <> 1 ->
     preserve_block conf b "new" e w =
       (inr "finding",
        set_errlog (errlog w ++ ["Found unexpected number of instances of blockfile on the local OS filesystem."])%list w)) /\
  (forall f mp, found = [f] -> (find_mount_point f e w).1 = inr mp -> plain_name b ->
     let dir := pjoin mp (LINUXFS_SHRED_PATH conf) in
     let dst := pjoin dir b in
     let dcs := realpath_comps (cwd e) dir in
     (realpath_comps (cwd e) f ∈ lfs_files w ->
      (dcs ++ [b])%list ∉ lfs_dirs w ∪ lfs_files w ->
      lfs_is_dir w dcs = true \/
        (lfs_present w dcs = false /\ forall n, 1 <= n -> take n dcs ∉ lfs_files w) ->
      (preserve_block conf b "new" e w).1 = inr "linked" /\
      links (preserve_block conf b "new" e w).2 = (links w ++ [(f, dst)])%list /\
      lfs_files (preserve_block conf b "new" e w).2 = {[ (dcs ++ [b])%list ]} ∪ lfs_files w /\
      lfs_is_dir (preserve_block conf b "new" e w).2 dcs = true /\
      ns (preserve_block conf b "new" e w).2 = ns w /\
      wlog (preserve_block conf b "new" e w).2 = wlog w) /\
     (realpath_comps (cwd e) f ∉ lfs_files w \/
      (dcs ++ [b])%list ∈ lfs_dirs w ∪ lfs_files w \/
      (lfs_is_dir w dcs = false /\ dcs ∈ lfs_files w) \/
      (lfs_present w dcs = false /\ exists n, 1 <= n /\ take n dcs ∈ lfs_files w) ->
      (preserve_block conf b "new" e w).1 = inl OSError)) /\
  (forall f, exists pre suf, realpath_comps (cwd e) f = (pre ++ suf)%list /\
     (find_mount_point f e w).1 = inr (render pre) /\
     (ismount e (render pre) = true \/ pre = []) /\
     forall a c, suf = (a ++ c)%list -> a <> [] -> ismount e (render (pre ++ a)) = false).
Proof.
  intros found. split; [|split; [|split]].
  - intros st Hst. unfold preserve_block.
    destruct (String.eqb_spec st "new"); [contradiction|reflexivity].
  - intros Hlen. unfold preserve_block, bindM, run_shell_command. simpl.
    fold found. destruct found as [|x [|y l]]; [reflexivity| |reflexivity].
    simpl in Hlen. lia.
  - intros f mp Hf Hmp Hb dir dst dcs.
    assert (Hmp_ne : mp <> "").
    { unfold find_mount_point in Hmp. simpl in Hmp. injection Hmp as <-. apply walk_up_nonempty. }
    assert (Hd : realpath_comps (cwd e) dst = (dcs ++ [b])%list).
    { apply realpath_comps_pjoin; [apply pjoin_nonempty, Hmp_ne | exact Hb]. }
    assert (Hrl : removelast (dcs ++ [b]) = dcs) by apply removelast_last.
    assert (Hnil : (dcs ++ [b])%list <> []) by (destruct dcs; discriminate).
    assert (Hrun : preserve_block conf b "new" e w =
      (let '(r, w1) := (if lfs_present w dcs then ret tt else local_makedirs dir) e w in
       match r with
       | inl x => (inl x, w1)
       | inr _ => let '(r2, w2) := local_link f dst e w1 in
                  match r2 with inl x => (inl x, w2) | inr _ => (inr "linked", w2) end
       end)).
    { unfold find_mount_point in Hmp. simpl in Hmp. injection Hmp as Hmp.
      unfold preserve_block, bindM, run_shell_command. simpl. unfold found in Hf. rewrite Hf.
      simpl. rewrite Hmp. fold dir. fold dst. unfold local_exists. fold dcs. cbn [fst snd].
      destruct ((if lfs_present w dcs then ret tt else local_makedirs dir) e w) as [[x|[]] w1]; [reflexivity|].
      destruct (local_link f dst e w1) as [[x|[]] w2]; reflexivity. }
    rewrite Hrun. split.
    + intros Hsrc Hdst Hdir.
      assert (Hlink : forall w1, lfs_files w1 = lfs_files w ->
                lfs_present w1 (dcs ++ [b]) = false -> lfs_is_dir w1 dcs = true ->
                local_link f dst e w1 =
                  (inr tt, set_lfs (lfs_dirs w1) ({[ (dcs ++ [b])%list ]} ∪ lfs_files w) (links w1 ++ [(f, dst)])%list w1)).
      { intros w1 Hfs Hp Hdr. unfold local_link. rewrite Hd, Hrl, Hp, Hdr, Hfs.
        rewrite bool_decide_eq_true_2 by exact Hsrc. reflexivity. }
      destruct Hdir as [Hdir | [Hp Ht]].
      * assert (Hpr : lfs_present w dcs = true) by (unfold lfs_present; rewrite Hdir; reflexivity).
        rewrite Hpr. unfold ret. cbn iota beta.
        rewrite Hlink; [|reflexivity| |exact Hdir].
        -- simpl. repeat split; [exact Hdir].
        -- unfold lfs_present, lfs_is_dir. rewrite !bool_decide_eq_false_2; [reflexivity|set_solver|].
           intros [H|H]; [exact (Hnil H)|set_solver].
      * rewrite Hp, (local_makedirs_ok dir e w Hp Ht). cbn iota beta.
        rewrite Hlink; [|reflexivity| |].
        -- simpl. repeat split. unfold lfs_is_dir. simpl. apply bool_decide_eq_true_2.
           destruct (decide (dcs = [])) as [E|E]; [left; exact E|right].
           apply elem_of_union_l, elem_of_list_to_set, self_in_ancestors, E.
        -- unfold lfs_present, lfs_is_dir. simpl. rewrite !bool_decide_eq_false_2; [reflexivity|set_solver|].
           rewrite elem_of_union, elem_of_list_to_set. pose proof (snoc_not_in_ancestors dcs b). set_solver.
        -- unfold lfs_is_dir. simpl. apply bool_decide_eq_true_2.
           destruct (decide (dcs = [])) as [E|E]; [left; exact E|right].
           apply elem_of_union_l, elem_of_list_to_set, self_in_ancestors, E.
    + intros Hfail.
      assert (Hlink : forall w1, lfs_files w1 = lfs_files w -> lfs_dirs w ⊆ lfs_dirs w1 ->
                (realpath_comps (cwd e) f ∉ lfs_files w \/ (dcs ++ [b])%list ∈ lfs_dirs w ∪ lfs_files w \/
                 lfs_is_dir w1 dcs = false) ->
                (local_link f dst e w1).1 = inl OSError).
      { intros w1 Hfs Hsub H. unfold local_link. rewrite Hd, Hrl, Hfs.
        destruct H as [H|[H|H]].
        - rewrite bool_decide_eq_false_2 by exact H. reflexivity.
        - replace (lfs_present w1 (dcs ++ [b])) with true; [rewrite andb_false_r; reflexivity|].
          unfold lfs_present, lfs_is_dir. rewrite Hfs. symmetry. apply orb_true_iff.
          apply elem_of_union in H as [H|H]; [left|right]; apply bool_decide_eq_true_2; [right; set_solver|exact H].
        - rewrite H, andb_false_r. reflexivity. }
      destruct (lfs_present w dcs) eqn:Hp.
      * unfold ret. cbn iota beta.
        assert (H1 : (local_link f dst e w).1 = inl OSError).
        { apply Hlink; [reflexivity|reflexivity|].
          destruct Hfail as [H|[H|[[H _]|[H _]]]]; auto. congruence. }
        destruct (local_link f dst e w) as [r2 w2]. simpl in H1. subst r2. reflexivity.
      * destruct (decide (Exists (fun n => take n dcs ∈ lfs_files w) (seq 1 (List.length dcs)))) as [Hex|Hno].
        -- apply Exists_exists in Hex as (n & Hn & Hfn). apply elem_of_seq in Hn.
           assert (Hn1 : 1 <= n) by lia.
           rewrite (local_makedirs_file_on_path dir e w n Hp Hn1 Hfn). reflexivity.
        -- assert (Ht : forall n, 1 <= n -> take n dcs ∉ lfs_files w).
           { intros n Hn Hfn. destruct (decide (n <= List.length dcs)).
             - apply Hno, Exists_exists. exists n. split; [apply elem_of_seq; lia|exact Hfn].
             - rewrite take_ge in Hfn by lia. unfold lfs_present in Hp.
               rewrite (bool_decide_eq_true_2 _ Hfn), orb_true_r in Hp. discriminate. }
           rewrite (local_makedirs_ok dir e w Hp Ht). cbn iota beta.
           match goal with |- context [local_link f dst e ?x] => set (w1 := x) end.
           assert (H1 : (local_link f dst e w1).1 = inl OSError).
           { apply Hlink; [reflexivity|simpl; set_solver|].
             destruct Hfail as [H|[H|[[H H']|[H H']]]]; auto.
             - unfold lfs_present in Hp. rewrite (bool_decide_eq_true_2 _ H'), orb_true_r in Hp. discriminate.
             - destruct H' as (n & Hn & Hfn). destruct (Ht n Hn Hfn). }
           destruct (local_link f dst e w1) as [r2 w2]. simpl in H1. subst r2. reflexivity.
  - intros f. destruct (find_mount_point_spec f e w) as (pre & suf & H1 & H2 & H3 & H4).
    exists pre, suf. rewrite H2. auto.
Qed.

(** Claim C5 does not hold as stated: a block left in finding by an
    earlier pass stays in finding on the next pass, with no link made. *)
Lemma finding_block_is_not_retried :
  let r := worker_workflow cf (env_at "10.0.0.1" "u" 0 true) w_finding in
  r.1 = inr tt /\
  ns r.2 !! worklist_path cf "J1" "10.0.0.1" = Some (EFile (dumps [("blk_1", "finding")])) /\
  links r.2 = [].
Proof. vm_compute. repeat split. Qed.

Lemma preserve_block_transitions_witness :
  preserve_block cf "blk_1" "finding" (env_at "10.0.0.1" "u" 0 true) w_linked
    = (inr "finding", w_linked) /\
  (preserve_block cf "blk_1" "new" env_two_copies w_linked).1 = inr "finding" /\
  links (preserve_block cf "blk_1" "new" (env_at "10.0.0.1" "u" 0 true) w_block_on_disk).2
    = [("/data1/hdfs/current/finalized/blk_1", "/data1/.shred/blk_1")] /\
  (preserve_block cf "blk_1" "new" (env_at "10.0.0.1" "u" 0 true) w_linked).1 = inl OSError /\
  (worker_workflow cf (env_at "10.0.0.1" "u" 0 true) w_one_worklist).1 = inl OSError.
Proof.
  assert (Hpn : plain_name "blk_1").
  { repeat split; try discriminate. }
  destruct (preserve_block_transitions cf "blk_1" (env_at "10.0.0.1" "u" 0 true) w_linked)
    as (H1 & _ & H3 & _).
  destruct (preserve_block_transitions cf "blk_1" env_two_copies w_linked) as (_ & H2 & _).
  destruct (preserve_block_transitions cf "blk_1" (env_at "10.0.0.1" "u" 0 true) w_block_on_disk)
    as (_ & _ & H4 & _).
  split; [|split; [|split; [|split]]].
  - apply H1. discriminate.
  - rewrite H2; [reflexivity|]. vm_compute. discriminate.
  - apply (H4 "/data1/hdfs/current/finalized/blk_1" "/data1"); [reflexivity|reflexivity|exact Hpn|..].
    + vm_compute. set_solver.
    + vm_compute. set_solver.
    + right. split; [reflexivity|]. intros [|[|n]] Hn; [lia|vm_compute; set_solver|].
      rewrite take_ge by (simpl; lia). vm_compute. set_solver.
  - apply (H3 "/data1/hdfs/current/finalized/blk_1" "/data1"); [reflexivity|reflexivity|exact Hpn|].
    left. vm_compute. set_solver.
  - vm_compute. reflexivity.
Defined.

(** ** The fsck parser *)

Local Arguments String.append : simpl nomatch.


Lemma str_length_app a b : String.length (a +s+ b) = String.length a + String.length b.
Proof. induction a as [|x a IH]; simpl; congruence. Qed.

Lemma split1_app sep a b :
  has_char sep a = false -> split1 sep (a +s+ String sep b) = (a, Some b).
Proof.
  induction a as [|x a IH]; simpl; intros H.
  - rewrite Ascii.eqb_refl. reflexivity.
  - apply orb_false_iff in H as [H1 H2]. rewrite H1, IH by exact H2. reflexivity.
Qed.

Lemma upto_space_app g rest :
  has_char " " g = false -> has_char nl g = false -> upto_space (g +s+ String " " rest) = Some g.
Proof.
  induction g as [|x g IH]; simpl; intros H1 H2; [reflexivity|].
  apply orb_false_iff in H1 as [H1 H1']. apply orb_false_iff in H2 as [H2 H2'].
  rewrite H1, H2, IH by assumption. reflexivity.
Qed.

Lemma re_search_colon_app a g rest :
  has_char ":" a = false -> g <> EmptyString -> has_char " " g = false -> has_char nl g = false ->
  re_search_colon (a +s+ String ":" (g +s+ String " " rest)) = Some g.
Proof.
  intros Ha Hg H1 H2. induction a as [|x a IH]; simpl in *.
  - destruct g as [|c g']; [contradiction|]. simpl in *.
    apply orb_false_iff in H1 as [H1 H1']. apply orb_false_iff in H2 as [H2 H2'].
    rewrite H2, upto_space_app by assumption. reflexivity.
  - apply orb_false_iff in Ha as [Ha1 Ha2]. rewrite Ha1. apply IH, Ha2.
Qed.

Lemma rpartition_head_none sep s : has_char sep s = false -> rpartition_head sep s = None.
Proof.
  induction s as [|x s IH]; simpl; intros H; [reflexivity|].
  apply orb_false_iff in H as [H1 H2]. rewrite IH by exact H2. rewrite H1. reflexivity.
Qed.

Lemma rpartition0_app sep blk gen :
  has_char sep gen = false -> rpartition0 sep (blk +s+ String sep gen) = blk.
Proof.
  intros H. unfold rpartition0. enough (rpartition_head sep (blk +s+ String sep gen) = Some blk)
    as -> by reflexivity.
  induction blk as [|x blk IH]; simpl.
  - rewrite rpartition_head_none by exact H. rewrite Ascii.eqb_refl. reflexivity.
  - rewrite IH. reflexivity.
Qed.

Lemma findall_skip a t : findall_dn_aux (String.length a) (a +s+ t) = findall_dn_aux 0 t.
Proof. induction a as [|x a IH]; simpl; [reflexivity|exact IH]. Qed.

Lemma prefix_app a t : String.prefix a (a +s+ t) = true.
Proof.
  induction a as [|x a IH]; simpl; [destruct t; reflexivity|].
  destruct (ascii_dec x x); [exact IH|contradiction].
Qed.

Lemma substring_0_all m t : String.length t <= m -> String.substring 0 m t = t.
Proof.
  revert m. induction t as [|x t IH]; intros m Hm; destruct m; simpl in *; try reflexivity; try lia.
  rewrite IH by lia. reflexivity.
Qed.

Lemma substring_app a t m :
  String.length (a +s+ t) <= m -> String.substring (String.length a) m (a +s+ t) = t.
Proof.
  revert m. induction a as [|x a IH]; intros m Hm; simpl in *.
  - apply substring_0_all. exact Hm.
  - destruct m; [lia|]. apply IH. lia.
Qed.

Lemma upto_bracket_app x t :
  has_char "]" x = false -> has_char nl x = false -> upto_bracket (x +s+ String "]" t) = Some x.
Proof.
  induction x as [|c x IH]; simpl; intros H1 H2; [reflexivity|].
  apply orb_false_iff in H1 as [H1 H1']. apply orb_false_iff in H2 as [H2 H2'].
  rewrite H1, H2, IH by assumption. reflexivity.
Qed.

Lemma has_char_app c a b : has_char c (a +s+ b) = has_char c a || has_char c b.
Proof. induction a as [|x a IH]; simpl; [reflexivity|]. rewrite IH, orb_assoc. reflexivity. Qed.

Lemma findall_dn_aux_cons0 c r :
  findall_dn_aux 0 (String c r) =
    if String.prefix dn_prefix (String c r) then
      match upto_bracket (String.substring (String.length dn_prefix)
                            (String.length (String c r)) (String c r)) with
      | Some g => g :: findall_dn_aux (String.length dn_prefix + String.length g) r
      | None => findall_dn_aux 0 r
      end
    else findall_dn_aux 0 r.
Proof. reflexivity. Qed.

Lemma findall_match x t :
  has_char "]" x = false -> has_char nl x = false ->
  findall_dn_aux 0 (dn_prefix +s+ (x +s+ String "]" t)) = x :: findall_dn_aux 0 t.
Proof.
  intros H1 H2.
  change (dn_prefix +s+ (x +s+ String "]" t))
    with (String "D" ("atanodeInfoWithStorage[" +s+ (x +s+ String "]" t))).
  rewrite findall_dn_aux_cons0.
  change (String "D" ("atanodeInfoWithStorage[" +s+ (x +s+ String "]" t)))
    with (dn_prefix +s+ (x +s+ String "]" t)).
  rewrite prefix_app, substring_app by lia. rewrite upto_bracket_app by assumption.
  f_equal.
  replace (String.length dn_prefix + String.length x)
    with (String.length ("atanodeInfoWithStorage[" +s+ (x +s+ "]"))).
  - replace ("atanodeInfoWithStorage[" +s+ (x +s+ String "]" t))
      with (("atanodeInfoWithStorage[" +s+ (x +s+ "]")) +s+ t)
      by (rewrite !str_app_assoc; reflexivity).
    apply findall_skip.
  - rewrite !str_length_app. simpl. lia.
Qed.

Lemma findall_sep t : findall_dn_aux 0 (", " +s+ t) = findall_dn_aux 0 t.
Proof. reflexivity. Qed.

Lemma findall_entry d t :
  dn_ok d = true ->
  findall_dn_aux 0 (dn_entry d +s+ t) = (d.1 +s+ String ":" d.2) :: findall_dn_aux 0 t.
Proof.
  unfold dn_ok. intros H. apply negb_true_iff in H. rewrite !orb_false_iff in H.
  destruct H as [[[[H1 H2] H3] H4] H5].
  replace (dn_entry d +s+ t) with (dn_prefix +s+ ((d.1 +s+ String ":" d.2) +s+ String "]" t))
    by (unfold dn_entry; rewrite !str_app_assoc; reflexivity).
  apply findall_match.
  - rewrite has_char_app. simpl. rewrite H2, H4. reflexivity.
  - rewrite has_char_app. simpl. rewrite H3, H5. reflexivity.
Qed.

Lemma findall_entries reps :
  forallb dn_ok reps = true ->
  findall_dn (String.concat ", " (map dn_entry reps) +s+ "]" +s+ String nl EmptyString)
    = map (fun d => d.1 +s+ String ":" d.2) reps.
Proof.
  unfold findall_dn. induction reps as [|d reps IH]; intros H; [reflexivity|].
  simpl in H. apply andb_true_iff in H as [Hd Hr].
  destruct reps as [|d' reps'].
  - simpl String.concat. rewrite findall_entry by exact Hd. reflexivity.
  - change (String.concat ", " (map dn_entry (d :: d' :: reps')))
      with (dn_entry d +s+ ", " +s+ String.concat ", " (map dn_entry (d' :: reps'))).
    rewrite !str_app_assoc, findall_entry by exact Hd. cbn [map]. f_equal.
    rewrite findall_sep. apply IH, Hr.
Qed.

Lemma fold_left_map_comp {A B C} (f : A -> B -> A) (g : C -> B) l a :
  fold_left f (map g l) a = fold_left (fun a x => f a (g x)) l a.
Proof. revert a. induction l as [|x l IH]; intros a; simpl; [reflexivity|apply IH]. Qed.

Lemma dn_ip_of_entry d : has_char ":" d.1 = false -> dn_ip_of (d.1 +s+ String ":" d.2) = d.1.
Proof. intros H. unfold dn_ip_of. rewrite split1_app by exact H. reflexivity. Qed.

Lemma fold_entries blk reps out :
  forallb dn_ok reps = true ->
  fold_left (fun m entry => dict_append (dn_ip_of entry) blk m)
            (map (fun d => d.1 +s+ String ":" d.2) reps) out
  = fold_left (fun m d => dict_append d.1 blk m) reps out.
Proof.
  rewrite fold_left_map_comp. revert out.
  induction reps as [|d reps IH]; intros out H; simpl; [reflexivity|].
  apply andb_true_iff in H as [Hd Hr].
  assert (Hc : has_char ":" d.1 = false).
  { unfold dn_ok in Hd. apply negb_true_iff in Hd. rewrite !orb_false_iff in Hd. tauto. }
  rewrite dn_ip_of_entry by exact Hc. apply IH, Hr.
Qed.

Ltac bool_hyps :=
  repeat match goal with
         | H : _ && _ = true |- _ => apply andb_true_iff in H as [? ?]
         | H : negb _ = true |- _ => apply negb_true_iff in H
         | H : _ || _ = false |- _ => apply orb_false_iff in H as [? ?]
         end.

Ltac no_char :=
  repeat first [ rewrite has_char_app
               | progress simpl
               | match goal with H : ?x = false |- context [?x] => rewrite H end ];
  reflexivity.

Lemma parse_fsck_line_digit c r a b g out :
  is_digit c = true -> split1 "[" (String c r) = (a, Some b) -> re_search_colon a = Some g ->
  parse_fsck_line (String c r) out
    = inr (fold_left (fun m entry => dict_append (dn_ip_of entry) (rpartition0 "_" g) m)
                     (findall_dn b) out).
Proof. intros Hc Hs Hr. unfold parse_fsck_line. rewrite Hc, Hs, Hr. reflexivity. Qed.

Lemma parse_block_line idx pool blk gen info reps out :
  wf_fsck_line (BlockLine idx pool blk gen info reps) = true ->
  parse_fsck_line (render_fsck_line (BlockLine idx pool blk gen info reps)) out
    = inr (fold_left (fun m d => dict_append d.1 blk m) reps out).
Proof.
  simpl wf_fsck_line. intros H. destruct idx as [|c idx']; [discriminate|].
  bool_hyps. cbn [has_char] in *. bool_hyps.
  set (B := String.concat ", " (map dn_entry reps) +s+ "]" +s+ String nl EmptyString).
  set (A := ((String c idx' +s+ ". " +s+ pool) +s+
             String ":" ((blk +s+ String "_" gen) +s+ String " " (info +s+ " ")))).
  set (r := idx' +s+ ". " +s+ pool +s+ ":" +s+ blk +s+ "_" +s+ gen +s+ " " +s+ info +s+ " [" +s+ B).
  assert (Hr : render_fsck_line (BlockLine (String c idx') pool blk gen info reps) = String c r)
    by reflexivity.
  assert (HA : String c r = A +s+ String "[" B)
    by (unfold r, A; repeat (rewrite ?str_app_assoc; cbn [String.append]); reflexivity).
  assert (Hs : split1 "[" (String c r) = (A, Some B)).
  { rewrite HA. apply split1_app. unfold A. no_char. }
  assert (Hg : re_search_colon A = Some (blk +s+ String "_" gen)).
  { unfold A. apply re_search_colon_app.
    - no_char.
    - destruct blk; discriminate.
    - no_char.
    - no_char. }
  rewrite Hr, (parse_fsck_line_digit c r A B _ out H Hs Hg).
  f_equal. rewrite rpartition0_app by assumption.
  unfold B. rewrite findall_entries by assumption. apply fold_entries. assumption.
Qed.

Lemma parse_fsck_aux_report ls out :
  forallb wf_fsck_line ls = true ->
  parse_fsck_aux (map render_fsck_line ls) out
    = inr (fold_left (fun m p => dict_append p.1 p.2 m) (fsck_contributions ls) out).
Proof.
  revert out. induction ls as [|l ls IH]; intros out H; [reflexivity|].
  simpl in H. apply andb_true_iff in H as [Hl Hls].
  unfold fsck_contributions. cbn [map List.concat]. rewrite fold_left_app.
  cbn [parse_fsck_aux]. destruct l as [t|idx pool blk gen info reps].
  - destruct t as [|c t']; [discriminate|]. simpl in Hl. apply negb_true_iff in Hl.
    simpl render_fsck_line. unfold parse_fsck_line at 1. rewrite Hl. apply IH, Hls.
  - rewrite parse_block_line by exact Hl. rewrite IH by exact Hls.
    f_equal. f_equal. rewrite fold_left_map_comp. reflexivity.
Qed.

Lemma split1_none sep s : has_char sep s = false -> split1 sep s = (s, None).
Proof.
  induction s as [|x s IH]; simpl; intros H; [reflexivity|].
  apply orb_false_iff in H as [H1 H2]. rewrite H1, IH by exact H2. reflexivity.
Qed.

Lemma parse_fsck_aux_app l1 l2 out :
  parse_fsck_aux (l1 ++ l2) out =
    match parse_fsck_aux l1 out with inl e => inl e | inr o => parse_fsck_aux l2 o end.
Proof.
  revert out. induction l1 as [|l l1 IH]; intros out; [reflexivity|].
  cbn [app parse_fsck_aux]. destruct (parse_fsck_line l out); [reflexivity|apply IH].
Qed.

Lemma parse_fsck_line_other c t out : is_digit c = false -> parse_fsck_line (String c t) out = inr out.
Proof. intros H. unfold parse_fsck_line. rewrite H. reflexivity. Qed.

Lemma parse_fsck_line_no_bracket c t out :
  is_digit c = true -> has_char "[" (String c t) = false ->
  parse_fsck_line (String c t) out =
    inl (match re_search_colon (String c t) with Some _ => IndexError | None => AttributeError end).
Proof.
  intros Hc Hb. unfold parse_fsck_line. rewrite Hc, (split1_none _ _ Hb).
  destruct (re_search_colon (String c t)); reflexivity.
Qed.

(** C10 (as stated, refuted): a line that begins with a digit but is not
    a located block line makes the parser fail instead of being skipped:
    the [MISSING] line of a block without replicas and a timestamped
    Hadoop log line both raise [IndexError]; and a block line with a
    leading space is skipped, so its replicas are lost. *)
Lemma fsck_digit_lines_raise :
  parse_blocks_from_fsck [missing_block_line] = inl IndexError /\
  parse_blocks_from_fsck [hadoop_warn_line] = inl IndexError /\
  parse_blocks_from_fsck [render_fsck_line sample_block]
    = inr (<["172.16.0.40" := ["blk_1073839025"]]> (<["172.16.0.80" := ["blk_1073839025"]]> ∅)) /\
  parse_blocks_from_fsck [indented_block_line] = inr ∅.
Proof. vm_compute. repeat split. Qed.

(** C10 (amended): on a report whose lines that begin with a digit are
    block lines [idx. pool:blk_gen info [DatanodeInfoWithStorage[ip:rest], ...]]
    and whose other lines are non-empty, the parser succeeds and maps every
    replica IP to the block ids (before the final ['_']) of the lines it
    appears on, in report order.  A line that does not begin with a digit
    is skipped: removing it never changes the result.  A line that begins
    with a digit and has no ['['] makes the parser raise, once the lines
    before it are parsed, whatever follows: [IndexError] when the regular
    expression [:(.+?) ] matches in it, [AttributeError] when it does not. *)
Theorem parse_blocks_from_fsck_report ls :
  (forallb wf_fsck_line ls = true ->
   parse_blocks_from_fsck (map render_fsck_line ls)
     = inr (fold_left (fun m p => dict_append p.1 p.2 m) (fsck_contributions ls) ∅)) /\
  (forall pre c t rest, is_digit c = false ->
   parse_blocks_from_fsck (pre ++ String c t :: rest) = parse_blocks_from_fsck (pre ++ rest)) /\
  (forall pre m c t rest, parse_blocks_from_fsck pre = inr m ->
   is_digit c = true -> has_char "[" (String c t) = false ->
   parse_blocks_from_fsck (pre ++ String c t :: rest)
     = inl (match re_search_colon (String c t) with Some _ => IndexError | None => AttributeError end)).
Proof.
  split; [|split].
  - intros H. apply parse_fsck_aux_report, H.
  - intros pre c t rest Hc. unfold parse_blocks_from_fsck. rewrite !parse_fsck_aux_app.
    destruct (parse_fsck_aux pre ∅) as [e|o]; [reflexivity|].
    cbn [parse_fsck_aux]. rewrite (parse_fsck_line_other c t o Hc). reflexivity.
  - intros pre m c t rest Hp Hc Hb. unfold parse_blocks_from_fsck in *.
    rewrite parse_fsck_aux_app, Hp. cbn [parse_fsck_aux].
    rewrite (parse_fsck_line_no_bracket c t m Hc Hb). reflexivity.
Qed.

Lemma parse_blocks_from_fsck_report_witness :
  forallb wf_fsck_line sample_report = true /\
  parse_blocks_from_fsck (map render_fsck_line sample_report)
    = inr (fold_left (fun m p => dict_append p.1 p.2 m) (fsck_contributions sample_report) ∅) /\
  parse_blocks_from_fsck (map render_fsck_line sample_report ++ [indented_block_line])
    = parse_blocks_from_fsck (map render_fsck_line sample_report) /\
  parse_blocks_from_fsck (map render_fsck_line sample_report ++ [missing_block_line]) = inl IndexError /\
  parse_blocks_from_fsck (map render_fsck_line sample_report ++ ["1 x" +s+ String nl EmptyString])
    = inl AttributeError.
Proof.
  assert (H : forallb wf_fsck_line sample_report = true) by (vm_compute; reflexivity).
  destruct (parse_blocks_from_fsck_report sample_report) as (H1 & H2 & H3).
  assert (Hm : parse_blocks_from_fsck (map render_fsck_line sample_report)
               = inr (fold_left (fun m p => dict_append p.1 p.2 m) (fsck_contributions sample_report) ∅))
    by exact (H1 H).
  split; [exact H|]. split; [exact Hm|]. split; [|split].
  - pose proof (H2 (map render_fsck_line sample_report) " "%char (render_fsck_line sample_block) [] eq_refl) as E.
    rewrite app_nil_r in E. exact E.
  - exact (H3 _ _ "0"%char (match missing_block_line with String _ t => t | EmptyString => EmptyString end) [] Hm eq_refl eq_refl).
  - exact (H3 _ _ "1"%char (" x" +s+ String nl EmptyString) [] Hm eq_refl eq_refl).
Defined.

(** ** A client run whose rename is refused *)

Lemma prefix_of_short {A} (q r s : list A) :
  (q `prefix_of` r ++ s)%list -> List.length q <= List.length r -> q `prefix_of` r.
Proof.
  intros Hq Hl. destruct (prefix_weak_total q r (r ++ s)%list Hq (prefix_app_r r r s (reflexivity r)))
    as [H|H]; [exact H|].
  rewrite (prefix_length_eq r q H Hl). reflexivity.
Qed.

Lemma strict_prefixes_spec q p : q ∈ strict_prefixes p -> q `prefix_of` p /\ List.length q < List.length p.
Proof.
  unfold strict_prefixes. intros H. apply list_elem_of_In, in_map_iff in H as (m & <- & Hm).
  apply in_seq in Hm. split; [apply prefix_take|]. rewrite length_take. lia.
Qed.

Lemma hdfs_kind_file n p : hdfs_kind n p = Some "FILE" -> exists c, n !! p = Some (EFile c).
Proof.
  unfold hdfs_kind. destruct (n !! p) as [[c| |]|]; try discriminate; [eauto|].
  case_match; discriminate.
Qed.

Lemma hdfs_kind_not_dir n p :
  p <> [] -> (forall x, n !! p = Some x -> exists c, x = EFile c) ->
  (forall k x, n !! k = Some x -> strict_prefix p k = false) ->
  hdfs_kind n p <> Some "DIRECTORY".
Proof.
  intros Hp Hx Hk. unfold hdfs_kind. destruct (n !! p) as [x|] eqn:E.
  - destruct (Hx x eq_refl) as [c ->]. discriminate.
  - rewrite bool_decide_false by exact Hp. simpl.
    destruct (existsb _ _) eqn:Ex; [|discriminate].
    apply existsb_exists in Ex as ([k x] & Hin & Hs).
    apply list_elem_of_In, elem_of_map_to_list in Hin.
    simpl in Hs. rewrite (Hk k x Hin) in Hs. discriminate.
Qed.

Lemma hdfs_write_ok p c e w :
  existsb (is_hdfs_file (ns w)) (strict_prefixes p) = false ->
  hdfs_kind (ns w) p <> Some "DIRECTORY" ->
  hdfs_write p c e w = (inr tt, set_wlog (wlog w ++ [(p, c)])%list (set_ns (<[p := EFile c]> (ns w)) w)).
Proof. intros H1 H2. unfold hdfs_write. rewrite H1, bool_decide_false by exact H2. reflexivity. Qed.

Lemma hdfs_makedirs_new p e w :
  existsb (is_hdfs_file (ns w)) (strict_prefixes p ++ [p])%list = false ->
  hdfs_kind (ns w) p <> Some "DIRECTORY" ->
  hdfs_makedirs p e w = (inr tt, set_ns (<[p := EDir]> (ns w)) w).
Proof. intros H1 H2. unfold hdfs_makedirs. rewrite H1, bool_decide_false by exact H2. reflexivity. Qed.

Lemma hdfs_rename_refused src dst e w :
  can_rename e src = false -> hdfs_rename src dst e w = (inl HdfsError, w).
Proof. intros H. unfold hdfs_rename. rewrite H. reflexivity. Qed.

Lemma job_path_prefix_eq (r : list string) J a t b u :
  job_path_shape a t -> job_path_shape b u ->
  (r ++ a :: J :: t)%list `prefix_of` (r ++ b :: J :: u)%list -> a = b /\ t = u.
Proof.
  intros Ha Hb H. apply prefix_app_inv in H.
  pose proof (prefix_cons_inv_1 _ _ _ _ H) as ->.
  apply prefix_cons_inv_2, prefix_cons_inv_2 in H. split; [reflexivity|].
  destruct Ha as [[-> ->]|[-> [-> | ->]]], Hb as [[Hb ->]|[Hb [-> | ->]]];
    try discriminate; try reflexivity;
    apply prefix_cons_inv_1 in H; discriminate.
Qed.

Lemma prefix_below_job (r : list string) a J t q :
  q `prefix_of` (r ++ a :: J :: t)%list ->
  (r ++ [a; J])%list `prefix_of` q \/ q `prefix_of` (r ++ [a])%list.
Proof.
  intros Hq.
  assert (Hp : (r ++ [a; J])%list `prefix_of` (r ++ a :: J :: t)%list).
  { exists t. rewrite <- app_assoc. reflexivity. }
  destruct (prefix_weak_total q (r ++ [a; J])%list _ Hq Hp) as [H|H]; [|left; exact H].
  destruct (decide (List.length q = List.length (r ++ [a; J])%list)) as [E|E].
  - left. rewrite (prefix_length_eq q (r ++ [a; J])%list H); [reflexivity|lia].
  - right. apply (prefix_of_short q (r ++ [a])%list [J]).
    + rewrite <- app_assoc. exact H.
    + apply prefix_length in H. rewrite !length_app in H, E |- *. simpl in *. lia.
Qed.

Section FreshJob.

Variables (conf : Conf) (J : string) (n n' : gmap (list string) Entry).
Hypothesis Hfresh : job_fresh conf J n.
Hypothesis Hgrown : status_grown conf J n n'.

Lemma grown_cases k x :
  n' !! k = Some x ->
  n !! k = Some x \/
  (exists a t c, job_path_shape a t /\ t <> ["data"] /\
                 k = (HDFS_SHRED_PATH conf ++ a :: J :: t)%list /\ x = EFile c).
Proof.
  intros H. destruct (Hgrown k x H) as [H'|[[-> | ->] [c ->]]]; [left; exact H'|right..].
  - exists "jobs", [], c. repeat split; [left; split; reflexivity|discriminate].
  - exists "store", ["status"], c. repeat split; [right; split; [reflexivity|left; reflexivity]|discriminate].
Qed.

Lemma fresh_below_dir q x a t :
  job_path_shape a t -> n !! q = Some x ->
  q `prefix_of` (HDFS_SHRED_PATH conf ++ a :: J :: t)%list -> x = EDir.
Proof.
  intros Ha Hq Hp. destruct (Hfresh q x Hq) as (H1 & H2 & H3).
  destruct (prefix_below_job _ _ _ _ _ Hp) as [H|H].
  - destruct Ha as [[-> _]|[-> _]]; contradiction.
  - apply H3. destruct Ha as [[-> _]|[-> _]]; [left|right]; exact H.
Qed.

Lemma fresh_not_below k x a t :
  job_path_shape a t -> n !! k = Some x ->
  ~ (HDFS_SHRED_PATH conf ++ a :: J :: t)%list `prefix_of` k.
Proof.
  intros Ha Hk Hp. destruct (Hfresh k x Hk) as (H1 & H2 & _).
  assert (Hq : (HDFS_SHRED_PATH conf ++ [a; J])%list `prefix_of` k).
  { etransitivity; [|exact Hp]. exists t. rewrite <- app_assoc. reflexivity. }
  destruct Ha as [[-> _]|[-> _]]; contradiction.
Qed.

(** No file on the way to a path of the job. *)
Lemma grown_no_file_above a t q :
  job_path_shape a t ->
  q ∈ (strict_prefixes (HDFS_SHRED_PATH conf ++ a :: J :: t)%list
       ++ (if decide (t = ["data"]) then [(HDFS_SHRED_PATH conf ++ a :: J :: t)%list] else []))%list ->
  is_hdfs_file n' q = false.
Proof.
  intros Ha Hq. unfold is_hdfs_file.
  destruct (n' !! q) as [x|] eqn:E; [|reflexivity].
  assert (Hp : q `prefix_of` (HDFS_SHRED_PATH conf ++ a :: J :: t)%list /\
               (List.length q < List.length (HDFS_SHRED_PATH conf ++ a :: J :: t)%list \/ t = ["data"] /\
                q = (HDFS_SHRED_PATH conf ++ a :: J :: t)%list)).
  { apply elem_of_app in Hq as [Hq|Hq].
    - apply strict_prefixes_spec in Hq as [? ?]. split; [assumption|left; assumption].
    - destruct (decide (t = ["data"])) as [Ht|Ht]; [|apply elem_of_nil in Hq; contradiction].
      apply list_elem_of_singleton in Hq as ->. split; [reflexivity|right; split; [exact Ht|reflexivity]]. }
  destruct Hp as [Hp Hl].
  destruct (grown_cases q x E) as [Hn|(b & u & c & Hb & Hu & -> & ->)].
  - rewrite (fresh_below_dir q x a t Ha Hn Hp). reflexivity.
  - exfalso. destruct (job_path_prefix_eq _ _ _ _ _ _ Hb Ha Hp) as [-> ->].
    destruct Hl as [Hl|[Ht _]]; [lia|contradiction].
Qed.

(** No entry below a path of the job. *)
Lemma grown_nothing_below a t k x :
  job_path_shape a t -> n' !! k = Some x ->
  strict_prefix (HDFS_SHRED_PATH conf ++ a :: J :: t)%list k = false.
Proof.
  intros Ha Hk. unfold strict_prefix. apply bool_decide_false. intros [Hp Hne].
  destruct (grown_cases k x Hk) as [Hn|(b & u & c & Hb & Hu & -> & ->)].
  - exact (fresh_not_below k x a t Ha Hn Hp).
  - destruct (job_path_prefix_eq _ _ _ _ _ _ Ha Hb Hp) as [-> ->]. contradiction.
Qed.

Lemma grown_at_job a t x :
  job_path_shape a t -> n' !! (HDFS_SHRED_PATH conf ++ a :: J :: t)%list = Some x ->
  t <> ["data"] /\ exists c, x = EFile c.
Proof.
  intros Ha Hk. destruct (grown_cases _ x Hk) as [Hn|(b & u & c & Hb & Hu & E & ->)].
  - exfalso. exact (fresh_not_below _ x a t Ha Hn (reflexivity _)).
  - apply app_inv_head in E. injection E as -> ->. split; [exact Hu|exists c; reflexivity].
Qed.

Lemma grown_not_dir a t :
  job_path_shape a t -> hdfs_kind n' (HDFS_SHRED_PATH conf ++ a :: J :: t)%list <> Some "DIRECTORY".
Proof.
  intros Ha. apply hdfs_kind_not_dir.
  - intros E. apply (f_equal List.length) in E. rewrite length_app in E. simpl in E. lia.
  - intros x Hx. exact (proj2 (grown_at_job a t x Ha Hx)).
  - intros k x Hk. exact (grown_nothing_below a t k x Ha Hk).
Qed.

Lemma grown_no_data_dir :
  n' !! (HDFS_SHRED_PATH conf ++ ["store"; J; "data"])%list = None.
Proof.
  destruct (n' !! _) as [x|] eqn:E; [|reflexivity]. exfalso.
  refine (proj1 (grown_at_job "store" ["data"] x _ E) eq_refl).
  right. split; [reflexivity|right; reflexivity].
Qed.

Lemma grown_insert k c :
  k = master_path conf J \/ k = status_path conf J "data" ->
  status_grown conf J n (<[k := EFile c]> n').
Proof.
  intros Hk k' x Hx. destruct (decide (k' = k)) as [->|Hne].
  - rewrite lookup_insert_eq in Hx. injection Hx as <-. right. split; [exact Hk|exists c; reflexivity].
  - rewrite lookup_insert_ne in Hx by congruence. exact (Hgrown k' x Hx).
Qed.

Lemma grown_existsb_strict a t :
  job_path_shape a t ->
  existsb (is_hdfs_file n') (strict_prefixes (HDFS_SHRED_PATH conf ++ a :: J :: t)%list) = false.
Proof.
  intros Ha. apply not_true_iff_false. intros H. apply existsb_exists in H as (q & Hin & Hq).
  rewrite (grown_no_file_above a t q Ha) in Hq; [discriminate|].
  apply elem_of_app. left. apply list_elem_of_In. exact Hin.
Qed.

Lemma grown_existsb_data :
  existsb (is_hdfs_file n')
          (strict_prefixes (HDFS_SHRED_PATH conf ++ ["store"; J; "data"])%list
           ++ [(HDFS_SHRED_PATH conf ++ ["store"; J; "data"])%list])%list = false.
Proof.
  apply not_true_iff_false. intros H. apply existsb_exists in H as (q & Hin & Hq).
  assert (Ha : job_path_shape "store" ["data"]) by (right; split; [reflexivity|right; reflexivity]).
  rewrite (grown_no_file_above "store" ["data"] q Ha) in Hq; [discriminate|].
  rewrite decide_True by reflexivity. apply list_elem_of_In. exact Hin.
Qed.

Lemma grown_write p c e w :
  ns w = n' -> p = master_path conf J \/ p = status_path conf J "data" ->
  hdfs_write p c e w = (inr tt, set_wlog (wlog w ++ [(p, c)])%list (set_ns (<[p := EFile c]> (ns w)) w)).
Proof.
  intros Hw Hp.
  assert (Hs : exists a t, job_path_shape a t /\ p = (HDFS_SHRED_PATH conf ++ a :: J :: t)%list).
  { destruct Hp as [-> | ->].
    - exists "jobs", []. split; [left; split; reflexivity|reflexivity].
    - exists "store", ["status"]. split; [right; split; [reflexivity|left; reflexivity]|reflexivity]. }
  destruct Hs as (a & t & Ha & ->).
  apply hdfs_write_ok; rewrite Hw; [apply grown_existsb_strict | apply grown_not_dir]; exact Ha.
Qed.

Lemma grown_makedirs e w :
  ns w = n' ->
  hdfs_makedirs (data_path conf J) e w = (inr tt, set_ns (<[data_path conf J := EDir]> (ns w)) w).
Proof.
  intros Hw. apply hdfs_makedirs_new; rewrite Hw; [apply grown_existsb_data|].
  apply grown_not_dir. right. split; [reflexivity|right; reflexivity].
Qed.

End FreshJob.

Lemma status_grown_refl conf J n : status_grown conf J n n.
Proof. intros k x H. left. exact H. Qed.

Lemma bind_ok {A B} (m : M A) (f : A -> M B) e w a w' :
  m e w = (inr a, w') -> bindM m f e w = f a e w'.
Proof. intros H. unfold bindM. rewrite H. reflexivity. Qed.

Lemma bind_err {A B} (m : M A) (f : A -> M B) e w x w' :
  m e w = (inl x, w') -> bindM m f e w = (inl x, w').
Proof. intros H. unfold bindM. rewrite H. reflexivity. Qed.

Lemma master_trace_app conf J l1 l2 :
  master_trace conf J (l1 ++ l2)%list = (master_trace conf J l1 ++ master_trace conf J l2)%list.
Proof. unfold master_trace. rewrite filter_app, map_app. reflexivity. Qed.

Lemma master_trace_cons_eq conf J c l :
  master_trace conf J ((master_path conf J, c) :: l) = c :: master_trace conf J l.
Proof. unfold master_trace. rewrite filter_cons_True by reflexivity. reflexivity. Qed.

Lemma master_trace_cons_ne conf J p c l :
  p <> master_path conf J -> master_trace conf J ((p, c) :: l) = master_trace conf J l.
Proof. intros H. unfold master_trace. rewrite filter_cons_False by exact H. reflexivity. Qed.

Lemma job_paths_distinct conf J :
  status_path conf J "data" <> master_path conf J /\
  data_path conf J <> master_path conf J /\
  data_path conf J <> status_path conf J "data".
Proof.
  change (master_path conf J) with (HDFS_SHRED_PATH conf ++ ["jobs"; J])%list.
  change (status_path conf J "data") with (HDFS_SHRED_PATH conf ++ ["store"; J; "status"])%list.
  unfold data_path. repeat split; intros E.
  - apply (f_equal List.length) in E. rewrite !length_app in E. simpl in E. lia.
  - apply (f_equal List.length) in E. rewrite !length_app in E. simpl in E. lia.
  - apply app_inv_head in E. discriminate.
Qed.

Lemma init_new_job_fresh conf e w :
  job_fresh conf (uuid e) (ns w) ->
  exists w2, init_new_job conf e w = (inr (uuid e, "stage1init"), w2) /\
    ns w2 = <[status_path conf (uuid e) "data" := EFile "stage1init"]>
              (<[master_path conf (uuid e) := EFile "stage1init"]> (ns w)) /\
    wlog w2 = (wlog w ++ [(master_path conf (uuid e), "stage1init");
                          (status_path conf (uuid e) "data", "stage1init")])%list.
Proof.
  intros Hf. unfold init_new_job, set_status.
  rewrite (bind_ok _ _ e w e w) by reflexivity. cbv beta.
  pose proof (G0 := status_grown_refl conf (uuid e) (ns w)).
  rewrite (bind_ok _ _ _ _ _ _
             (grown_write _ _ _ _ Hf G0 (master_path conf (uuid e)) "stage1init" e w
                          eq_refl (or_introl eq_refl))).
  pose proof (G1 := grown_insert _ _ _ _ G0 (master_path conf (uuid e)) "stage1init" (or_introl eq_refl)).
  rewrite (bind_ok _ _ _ _ _ _
             (grown_write _ _ _ _ Hf G1 (status_path conf (uuid e) "data") "stage1init" e
                          (set_wlog (wlog w ++ [(master_path conf (uuid e), "stage1init")])%list
                             (set_ns (<[master_path conf (uuid e) := EFile "stage1init"]> (ns w)) w))
                          eq_refl (or_intror eq_refl))).
  eexists. split; [reflexivity|]. split; [reflexivity|]. simpl. rewrite <- app_assoc. reflexivity.
Qed.

Lemma ingest_targets_refused conf e w wg target :
  job_fresh conf (uuid e) (ns w) -> status_grown conf (uuid e) (ns w) (ns wg) ->
  can_rename e target = false ->
  exists w5, ingest_targets conf (uuid e) target e wg = (inl HdfsError, w5) /\
    ns w5 = <[data_path conf (uuid e) := EDir]>
              (<[status_path conf (uuid e) "data" := EFile "stage1ingest"]>
                 (<[master_path conf (uuid e) := EFile "stage1ingest"]> (ns wg))) /\
    wlog w5 = (wlog wg ++ [(master_path conf (uuid e), "stage1ingest");
                           (status_path conf (uuid e) "data", "stage1ingest")])%list.
Proof.
  intros Hf G0 Hr. unfold ingest_targets, set_status.
  rewrite (bind_ok _ _ _ _ _ _
             (grown_write _ _ _ _ Hf G0 (master_path conf (uuid e)) "stage1ingest" e wg
                          eq_refl (or_introl eq_refl))).
  pose proof (G1 := grown_insert _ _ _ _ G0 (master_path conf (uuid e)) "stage1ingest" (or_introl eq_refl)).
  set (w3 := set_wlog (wlog wg ++ [(master_path conf (uuid e), "stage1ingest")])%list
               (set_ns (<[master_path conf (uuid e) := EFile "stage1ingest"]> (ns wg)) wg)).
  rewrite (bind_ok _ _ _ _ _ _
             (grown_write _ _ _ _ Hf G1 (status_path conf (uuid e) "data") "stage1ingest" e w3
                          eq_refl (or_intror eq_refl))).
  pose proof (G2 := grown_insert _ _ _ _ G1 (status_path conf (uuid e) "data") "stage1ingest" (or_intror eq_refl)).
  set (w4 := set_wlog (wlog w3 ++ [(status_path conf (uuid e) "data", "stage1ingest")])%list
               (set_ns (<[status_path conf (uuid e) "data" := EFile "stage1ingest"]> (ns w3)) w3)).
  rewrite (bind_ok _ _ _ _ _ _ (grown_makedirs _ _ _ _ Hf G2 e w4 eq_refl)).
  rewrite (bind_err _ _ _ _ _ _ (hdfs_rename_refused _ _ e _ Hr)).
  eexists. split; [reflexivity|]. split; [reflexivity|]. simpl. rewrite <- app_assoc. reflexivity.
Qed.

(** C8 (as stated, refuted): a client whose rename of the target is
    refused fails, but leaves job J1 behind: its master status reads
    stage1ingest, its data directory exists, and the master tokens
    stage1init and stage1ingest have been written. *)
Lemma rename_refused_job_left_in_store :
  let r := client_workflow cf (<["file_to_shred" := "/user/alice/x"]> ∅)
                           (env_at "10.0.0.9" "J1" 0 false) w_user in
  r.1 = inl HdfsError /\
  ns r.2 !! [".shred"; "jobs"; "J1"] = Some (EFile "stage1ingest") /\
  ns r.2 !! [".shred"; "store"; "J1"; "data"] = Some EDir /\
  ns r.2 !! target_x = Some (EFile "payload") /\
  master_trace cf "J1" (wlog r.2) = ["stage1init"; "stage1ingest"].
Proof. vm_compute. repeat split. Qed.

(** C8 (amended): when the target is an existing file, the job's paths
    are fresh and the rename of the target is refused, the client
    invocation fails with [HdfsError] and leaves the job in the store: the
    master and data status both read stage1ingest, the data directory
    exists, and stage1init then stage1ingest were written to the master
    status.  Nothing is cleaned up. *)
Theorem client_rename_refused_leaves_job conf args f e w :
  args !! "file_to_shred" = Some f ->
  hdfs_kind (ns w) (realpath_comps (cwd e) f) = Some "FILE" ->
  can_rename e (realpath_comps (cwd e) f) = false ->
  job_fresh conf (uuid e) (ns w) ->
  let r := client_workflow conf args e w in
  r.1 = inl HdfsError /\
  ns r.2 !! master_path conf (uuid e) = Some (EFile "stage1ingest") /\
  ns r.2 !! status_path conf (uuid e) "data" = Some (EFile "stage1ingest") /\
  ns r.2 !! data_path conf (uuid e) = Some EDir /\
  master_trace conf (uuid e) (wlog r.2)
    = (master_trace conf (uuid e) (wlog w) ++ ["stage1init"; "stage1ingest"])%list.
Proof.
  intros Ha Hk Hr Hf r. subst r.
  unfold client_workflow. rewrite Ha.
  rewrite (bind_ok _ _ e w e w) by reflexivity. cbv beta.
  rewrite (bind_ok _ _ e w true w).
  2:{ unfold check_hdfs_for_target, hdfs_status, gets.
      rewrite (bind_ok _ _ e w (Some "FILE") w); [reflexivity|]. simpl. rewrite Hk. reflexivity. }
  cbn [negb]. destruct (init_new_job_fresh conf e w Hf) as (w2 & Hi & Hn2 & Hl2).
  rewrite (bind_ok _ _ _ _ _ _ Hi). cbv beta iota.
  change (str_in "stage1init" "stage1init") with true. cbn [negb].
  assert (G : status_grown conf (uuid e) (ns w) (ns w2)).
  { rewrite Hn2. apply grown_insert; [|right; reflexivity].
    apply grown_insert; [apply status_grown_refl|left; reflexivity]. }
  destruct (ingest_targets_refused conf e w w2 _ Hf G Hr) as (w5 & Hg & Hn5 & Hl5).
  rewrite (bind_err _ _ _ _ _ _ Hg). cbn [fst snd].
  destruct (job_paths_distinct conf (uuid e)) as (D1 & D2 & D3).
  rewrite Hn5. split; [reflexivity|]. split; [|split; [|split]].
  - rewrite lookup_insert_ne by congruence. rewrite lookup_insert_ne by congruence.
    apply lookup_insert_eq.
  - rewrite lookup_insert_ne by congruence. apply lookup_insert_eq.
  - apply lookup_insert_eq.
  - rewrite Hl5, Hl2, !master_trace_app, master_trace_cons_eq, master_trace_cons_ne by exact D1.
    rewrite master_trace_cons_eq, master_trace_cons_ne by exact D1.
    unfold master_trace at 2 4. simpl. rewrite <- !app_assoc. reflexivity.
Qed.

Lemma client_rename_refused_leaves_job_witness :
  let args := <["file_to_shred" := "/user/alice/x"]> (∅ : gmap string string) in
  let e := env_at "10.0.0.9" "J1" 0 false in
  args !! "file_to_shred" = Some "/user/alice/x" /\
  hdfs_kind (ns w_user) (realpath_comps (cwd e) "/user/alice/x") = Some "FILE" /\
  can_rename e (realpath_comps (cwd e) "/user/alice/x") = false /\
  job_fresh cf (uuid e) (ns w_user) /\
  (let r := client_workflow cf args e w_user in
   r.1 = inl HdfsError /\
   ns r.2 !! master_path cf (uuid e) = Some (EFile "stage1ingest") /\
   ns r.2 !! status_path cf (uuid e) "data" = Some (EFile "stage1ingest") /\
   ns r.2 !! data_path cf (uuid e) = Some EDir /\
   master_trace cf (uuid e) (wlog r.2)
     = (master_trace cf (uuid e) (wlog w_user) ++ ["stage1init"; "stage1ingest"])%list).
Proof.
  intros args e.
  assert (H1 : args !! "file_to_shred" = Some "/user/alice/x") by reflexivity.
  assert (H2 : hdfs_kind (ns w_user) (realpath_comps (cwd e) "/user/alice/x") = Some "FILE")
    by (vm_compute; reflexivity).
  assert (H3 : can_rename e (realpath_comps (cwd e) "/user/alice/x") = false) by reflexivity.
  assert (H4 : job_fresh cf (uuid e) (ns w_user)).
  { intros k x H. unfold w_user, with_ns in H. simpl in H.
    apply lookup_singleton_Some in H as [<- <-]. unfold target_x.
    split; [|split]; [intros Hp ..|intros [Hp|Hp]];
      apply prefix_cons_inv_1 in Hp; discriminate. }
  split; [exact H1|]. split; [exact H2|]. split; [exact H3|]. split; [exact H4|].
  exact (client_rename_refused_leaves_job cf args "/user/alice/x" e w_user H1 H2 H3 H4).
Defined.

(** ** Writes to the master status *)

Lemma nm_at_same conf K w w' : hdfs_same w w' -> nm_at conf K w w'.
Proof. intros [Hn Hl]. unfold nm_at. rewrite Hn, Hl. split; reflexivity. Qed.

Lemma nm_at_trans conf K w1 w2 w3 : nm_at conf K w1 w2 -> nm_at conf K w2 w3 -> nm_at conf K w1 w3.
Proof. intros [T1 M1] [T2 M2]. split; congruence. Qed.

Lemma bf_at_nm conf K w w' : nm_at conf K w w' -> bf_at conf K w w'.
Proof. intros [T Mp]. split; [exact T|]. intros c Hc. rewrite <- Mp. exact Hc. Qed.

Lemma bf_at_trans conf K w1 w2 w3 : bf_at conf K w1 w2 -> bf_at conf K w2 w3 -> bf_at conf K w1 w3.
Proof. intros [T1 M1] [T2 M2]. split; [congruence|]. intros c Hc. apply M1, M2, Hc. Qed.

Lemma master_path_inj conf J K : master_path conf J = master_path conf K -> J = K.
Proof.
  change (master_path conf J) with (HDFS_SHRED_PATH conf ++ ["jobs"; J])%list.
  change (master_path conf K) with (HDFS_SHRED_PATH conf ++ ["jobs"; K])%list.
  intros E. apply app_inv_head in E. congruence.
Qed.

Lemma store_not_master conf t K : (HDFS_SHRED_PATH conf ++ "store" :: t)%list <> master_path conf K.
Proof.
  change (master_path conf K) with (HDFS_SHRED_PATH conf ++ ["jobs"; K])%list.
  intros E. apply app_inv_head in E. discriminate.
Qed.

(** A write to a path that is no master status leaves every master alone. *)
Lemma write_other_nm conf p c e w K :
  (forall K', p <> master_path conf K') -> nm_at conf K w (hdfs_write p c e w).2.
Proof.
  intros Hp. unfold hdfs_write.
  destruct (existsb _ _); [apply nm_at_same; split; reflexivity|].
  case_bool_decide; [apply nm_at_same; split; reflexivity|].
  split; cbn [snd wlog ns set_wlog set_ns].
  - rewrite master_trace_app, master_trace_cons_ne by apply Hp.
    unfold master_trace at 2. simpl. rewrite app_nil_r. reflexivity.
  - apply lookup_insert_ne. intros E. apply (Hp K). rewrite E. reflexivity.
Qed.

Lemma makedirs_other_nm conf p e w K :
  (forall K', p <> master_path conf K') -> nm_at conf K w (hdfs_makedirs p e w).2.
Proof.
  intros Hp. unfold hdfs_makedirs.
  destruct (existsb _ _); [apply nm_at_same; split; reflexivity|].
  case_bool_decide; [apply nm_at_same; split; reflexivity|].
  split; cbn [snd wlog ns set_ns]; [reflexivity|].
  apply lookup_insert_ne. intros E. apply (Hp K). rewrite E. reflexivity.
Qed.

Section MasterWrites.

Variable conf : Conf.
Variable Q : string -> World -> World -> Prop.
Hypothesis Q_nm : forall K w w', nm_at conf K w w' -> Q K w w'.
Hypothesis Q_trans : forall K w1 w2 w3, Q K w1 w2 -> Q K w2 w3 -> Q K w1 w3.
Variable J : string.
Variable e : Env.

Lemma job_eff_nm w w' : (forall K, nm_at conf K w w') -> job_eff conf Q J [] w w'.
Proof.
  intros H. split; [intros K _; apply Q_nm, H|]. destruct (H J) as [Ht Hm].
  split; [rewrite Ht, app_nil_r; reflexivity|].
  intros c Hc. left. rewrite <- Hm. split; [reflexivity|exact Hc].
Qed.

Lemma job_eff_comp a b w1 w2 w3 :
  job_eff conf Q J a w1 w2 -> job_eff conf Q J b w2 w3 -> job_eff conf Q J (a ++ b)%list w1 w3.
Proof.
  intros (Q1 & T1 & M1) (Q2 & T2 & M2). split; [|split].
  - intros K HK. eapply Q_trans; [apply Q1|apply Q2]; exact HK.
  - rewrite T2, T1, app_assoc. reflexivity.
  - intros c Hc. destruct (M2 c Hc) as [[-> H]|H].
    + rewrite app_nil_r. exact (M1 c H).
    + right. rewrite last_app, H. reflexivity.
Qed.

Lemma mw_nm {A} (m : M A) :
  (forall w K, nm_at conf K w (m e w).2) -> master_writes conf Q J [] m e.
Proof.
  intros H w. exists []. split; [reflexivity|]. split; [reflexivity|].
  apply job_eff_nm. intros K. apply H.
Qed.

Lemma mw_same {A} (m : M A) :
  (forall w, hdfs_same w (m e w).2) -> master_writes conf Q J [] m e.
Proof. intros H. apply mw_nm. intros w K. apply nm_at_same, H. Qed.

Lemma mw_fail {A} (m : M A) toks :
  (forall w, (exists x, (m e w).1 = inl x) /\ hdfs_same w (m e w).2) -> master_writes conf Q J toks m e.
Proof.
  intros H w. destruct (H w) as [[x Hx] Hs]. exists []. split; [apply prefix_nil|]. split.
  - intros a Ha. rewrite Hx in Ha. discriminate.
  - apply job_eff_nm. intros K. apply nm_at_same, Hs.
Qed.

Lemma mw_ret {A} (x : A) : master_writes conf Q J [] (ret x) e.
Proof. apply mw_same. intros w. split; reflexivity. Qed.

Lemma mw_raise {A} ex toks : master_writes conf Q J toks (@raise A ex) e.
Proof. apply mw_fail. intros w. split; [exists ex; reflexivity|split; reflexivity]. Qed.

Lemma mw_bind {A B} (m : M A) (f : A -> M B) t1 t2 toks :
  toks = (t1 ++ t2)%list ->
  master_writes conf Q J t1 m e ->
  (forall a, (exists w, (m e w).1 = inr a) -> master_writes conf Q J t2 (f a) e) ->
  master_writes conf Q J toks (bindM m f) e.
Proof.
  intros -> Hm Hf w. destruct (Hm w) as (x1 & P1 & S1 & E1). unfold bindM.
  destruct (m e w) as [[ex|a] w1] eqn:Hr; cbn [fst snd] in *.
  - exists x1. split; [apply prefix_app_r, P1|]. split; [intros a Ha; discriminate|exact E1].
  - rewrite (S1 a eq_refl) in E1.
    destruct (Hf a (ex_intro _ w (f_equal fst Hr)) w1) as (x2 & P2 & S2 & E2).
    exists (t1 ++ x2)%list. split; [|split].
    + destruct P2 as [t ->]. exists t. rewrite app_assoc. reflexivity.
    + intros b Hb. rewrite (S2 b Hb). reflexivity.
    + apply job_eff_comp with w1; assumption.
Qed.

Lemma mw_catch {A} (m h : M A) :
  master_writes conf Q J [] m e -> master_writes conf Q J [] h e ->
  master_writes conf Q J [] (catch_hdfs m h) e.
Proof.
  intros Hm Hh w. destruct (Hm w) as (x1 & P1 & S1 & E1). unfold catch_hdfs.
  apply prefix_nil_inv in P1 as ->.
  destruct (m e w) as [[[] |a] w1] eqn:Hr; cbn [fst snd] in *;
    try (exists []; split; [reflexivity|]; split; [intros; reflexivity|exact E1]).
  destruct (Hh w1) as (x2 & P2 & S2 & E2). apply prefix_nil_inv in P2 as ->.
  exists []. split; [reflexivity|]. split; [intros; reflexivity|].
  apply (job_eff_comp [] [] w w1); assumption.
Qed.

Lemma mw_forM {A} (l : list A) (f : A -> M unit) :
  (forall x, master_writes conf Q J [] (f x) e) -> master_writes conf Q J [] (forM_ l f) e.
Proof.
  intros H. induction l as [|x l IH]; simpl; [apply mw_ret|].
  apply (mw_bind _ _ [] []); [reflexivity|apply H|intros; exact IH].
Qed.

Lemma mw_mapM {A B} (f : A -> M B) (l : list A) :
  (forall x, master_writes conf Q J [] (f x) e) -> master_writes conf Q J [] (mapM f l) e.
Proof.
  intros H. induction l as [|x l IH]; simpl; [apply mw_ret|].
  apply (mw_bind _ _ [] []); [reflexivity|apply H|intros].
  apply (mw_bind _ _ [] []); [reflexivity|exact IH|intros; apply mw_ret].
Qed.

Lemma mw_write_master c : master_writes conf Q J [c] (hdfs_write (master_path conf J) c) e.
Proof.
  intros w. unfold hdfs_write.
  destruct (existsb _ _) eqn:E1.
  { exists []. split; [apply prefix_nil|]. split; [intros; discriminate|].
    apply job_eff_nm. intros K. apply nm_at_same. split; reflexivity. }
  case_bool_decide.
  { exists []. split; [apply prefix_nil|]. split; [intros; discriminate|].
    apply job_eff_nm. intros K. apply nm_at_same. split; reflexivity. }
  exists [c]. split; [reflexivity|]. split; [intros; reflexivity|].
  cbn [fst snd]. split; [|split].
  - intros K HK. apply Q_nm. split; cbn [wlog ns set_wlog set_ns].
    + rewrite master_trace_app, master_trace_cons_ne.
      * unfold master_trace at 2. simpl. rewrite app_nil_r. reflexivity.
      * intros E. apply master_path_inj in E. congruence.
    + apply lookup_insert_ne. intros E. apply master_path_inj in E. congruence.
  - cbn [wlog set_wlog]. rewrite master_trace_app, master_trace_cons_eq. reflexivity.
  - intros c' Hc. cbn [ns set_wlog set_ns] in Hc. rewrite lookup_insert_eq in Hc.
    injection Hc as ->. right. reflexivity.
Qed.

Lemma mw_write_store t c : master_writes conf Q J [] (hdfs_write (HDFS_SHRED_PATH conf ++ "store" :: t)%list c) e.
Proof. apply mw_nm. intros w K. apply write_other_nm, store_not_master. Qed.

Lemma mw_makedirs_store t : master_writes conf Q J [] (hdfs_makedirs (HDFS_SHRED_PATH conf ++ "store" :: t)%list) e.
Proof. apply mw_nm. intros w K. apply makedirs_other_nm, store_not_master. Qed.

End MasterWrites.

Ltac qside := first [ exact (bf_at_nm _) | exact (bf_at_trans _)
                    | exact (fun _ _ _ H => H) | exact (nm_at_trans _) ].

Ltac mwb l1 l2 :=
  eapply mw_bind with (t1 := l1) (t2 := l2); try qside; [reflexivity| |intros ? ?].

Ltac ask_eq :=
  match goal with H : exists w, (ask _ w).1 = inr _ |- _ =>
    let w := fresh "w" in destruct H as [w H]; cbn in H; injection H as <- end.

Lemma store_app_not_master conf t u K :
  ((HDFS_SHRED_PATH conf ++ "store" :: t) ++ u)%list <> master_path conf K.
Proof. rewrite <- app_assoc. apply store_not_master. Qed.

(** A rename into the store neither writes nor creates a master status. *)
Lemma rename_store_master conf src t e w :
  let w' := (hdfs_rename src (HDFS_SHRED_PATH conf ++ "store" :: t)%list e w).2 in
  wlog w' = wlog w /\
  forall K x, ns w' !! master_path conf K = Some x -> ns w !! master_path conf K = Some x.
Proof.
  unfold hdfs_rename. cbv zeta.
  set (dst' := if bool_decide _ then _ else _).
  assert (Hd : forall K u, (dst' ++ u)%list <> master_path conf K).
  { intros K u. unfold dst'. case_bool_decide; [rewrite <- app_assoc|]; apply store_app_not_master. }
  destruct (negb _); [split; [reflexivity|solve [auto]]|].
  destruct (hdfs_kind (ns w) src), (hdfs_kind (ns w) dst'); try (split; [reflexivity|solve [auto]]).
  split; [reflexivity|]. intros K x H. cbn [snd ns set_ns] in H.
  apply elem_of_list_to_map_2, list_elem_of_In, in_map_iff in H as [[k v] [Hkv Hin]].
  apply list_elem_of_In, elem_of_map_to_list in Hin. cbn [fst snd] in Hkv.
  injection Hkv as Hk ->. unfold rekey in Hk. case_bool_decide.
  - exfalso. exact (Hd K _ Hk).
  - subst k. exact Hin.
Qed.

Lemma mw_rename_store conf J e src t :
  master_writes conf (bf_at conf) J [] (hdfs_rename src (HDFS_SHRED_PATH conf ++ "store" :: t)%list) e.
Proof.
  intros w. destruct (rename_store_master conf src t e w) as [Hl Hm].
  exists []. split; [reflexivity|]. split; [intros; reflexivity|]. split; [|split].
  - intros K _. split; [rewrite Hl; reflexivity|]. intros c. apply Hm.
  - rewrite Hl, app_nil_r. reflexivity.
  - intros c Hc. left. split; [reflexivity|]. apply Hm, Hc.
Qed.

Lemma init_new_job_result conf e w a :
  (init_new_job conf e w).1 = inr a -> a = (uuid e, "stage1init").
Proof.
  unfold init_new_job, bindM, ask, set_status, ret.
  destruct (hdfs_write _ _ _ _) as [[?|[]] w1]; [discriminate|].
  destruct (hdfs_write _ _ _ _) as [[?|[]] w2]; [discriminate|].
  cbn. congruence.
Qed.

Lemma ingest_targets_result conf j t e w a :
  (ingest_targets conf j t e w).1 = inr a -> a = (j, "stage1ingestComplete").
Proof.
  unfold ingest_targets, bindM, set_status, ret.
  repeat match goal with
         | |- context [match ?m e ?w with _ => _ end] =>
             destruct (m e w) as [[?|[]] ?]; [discriminate|]
         end.
  cbn. congruence.
Qed.

(** The client writes, to the master status of its own job, a prefix of
    stage1init, stage1ingest, stage1complete, and no other master status. *)
Lemma client_master_writes conf args e :
  master_writes conf (bf_at conf) (uuid e) ["stage1init"; "stage1ingest"; "stage1complete"]
    (client_workflow conf args) e.
Proof.
  unfold client_workflow. destruct (args !! "file_to_shred") as [f|]; [|eapply mw_raise; qside].
  mwb (@nil string) ["stage1init"; "stage1ingest"; "stage1complete"].
  { eapply mw_same; try qside. intros w. split; reflexivity. }
  ask_eq.
  mwb (@nil string) ["stage1init"; "stage1ingest"; "stage1complete"].
  { eapply mw_same; try qside. intros w. split; reflexivity. }
  match goal with |- context [if negb ?b then _ else _] => destruct b end; cbn [negb];
    [|eapply mw_raise; qside].
  mwb ["stage1init"] ["stage1ingest"; "stage1complete"].
  { unfold init_new_job. mwb (@nil string) ["stage1init"].
    { eapply mw_same; try qside. intros w. split; reflexivity. }
    ask_eq.
    mwb ["stage1init"] (@nil string); [eapply mw_write_master; qside|].
    mwb (@nil string) (@nil string); [eapply mw_write_store; qside|].
    eapply mw_ret; qside. }
  match goal with H : exists w, (init_new_job _ _ w).1 = inr _ |- _ =>
    let w := fresh "w" in destruct H as [w H]; apply init_new_job_result in H; subst end.
  change (negb (str_in "stage1init" "stage1init")) with false. cbv iota.
  mwb ["stage1ingest"] ["stage1complete"].
  { unfold ingest_targets.
    mwb ["stage1ingest"] (@nil string); [eapply mw_write_master; qside|].
    mwb (@nil string) (@nil string); [eapply mw_write_store; qside|].
    mwb (@nil string) (@nil string); [eapply mw_makedirs_store; qside|].
    mwb (@nil string) (@nil string); [apply mw_rename_store|].
    mwb (@nil string) (@nil string); [eapply mw_write_store; qside|].
    eapply mw_ret; qside. }
  match goal with H : exists w, (ingest_targets _ _ _ _ w).1 = inr _ |- _ =>
    let w := fresh "w" in destruct H as [w H]; apply ingest_targets_result in H; subst end.
  change (negb (String.eqb "stage1ingestComplete" "stage1ingestComplete")) with false. cbv iota.
  mwb ["stage1complete"] (@nil string).
  { unfold finalise_client. mwb ["stage1complete"] (@nil string); [eapply mw_write_master; qside|].
    eapply mw_ret; qside. }
  match goal with |- context [if ?b then _ else _] => destruct b end;
    [eapply mw_ret; qside|eapply mw_raise; qside].
Qed.

(** ** Writes of the worker to the master status *)

Lemma mmw_of_mw {A} conf Q J toks (m : M A) e :
  master_writes conf Q J toks m e -> master_may_write conf Q J toks m e.
Proof. intros H w. destruct (H w) as (x & P & _ & E). exists x. split; assumption. Qed.

Lemma mmw_weaken {A} conf Q J toks (m : M A) e :
  master_may_write conf Q J [] m e -> master_may_write conf Q J toks m e.
Proof.
  intros H w. destruct (H w) as (x & P & E). exists x. split; [|exact E].
  apply prefix_nil_inv in P as ->. apply prefix_nil.
Qed.

Lemma mmw_bind {A B} conf Q J (m : M A) (f : A -> M B) t1 t2 toks e :
  (forall K w w', nm_at conf K w w' -> Q K w w') ->
  (forall K w1 w2 w3, Q K w1 w2 -> Q K w2 w3 -> Q K w1 w3) ->
  toks = (t1 ++ t2)%list ->
  master_writes conf Q J t1 m e ->
  (forall a, master_may_write conf Q J t2 (f a) e) ->
  master_may_write conf Q J toks (bindM m f) e.
Proof.
  intros Qn Qt -> Hm Hf w. destruct (Hm w) as (x1 & P1 & S1 & E1). unfold bindM.
  destruct (m e w) as [[ex|a] w1]; cbn [fst snd] in *.
  - exists x1. split; [|exact E1]. destruct P1 as [r ->]. exists (r ++ t2)%list.
    rewrite app_assoc. reflexivity.
  - rewrite (S1 a eq_refl) in E1. destruct (Hf a w1) as (x2 & P2 & E2).
    exists (t1 ++ x2)%list. split.
    + destruct P2 as [r ->]. exists r. rewrite app_assoc. reflexivity.
    + apply (job_eff_comp conf Q Qt) with w1; assumption.
Qed.

Lemma mmw_bind_nil {A B} conf Q J (m : M A) (f : A -> M B) toks e :
  (forall K w w', nm_at conf K w w' -> Q K w w') ->
  (forall K w1 w2 w3, Q K w1 w2 -> Q K w2 w3 -> Q K w1 w3) ->
  master_may_write conf Q J toks m e ->
  (forall a, master_may_write conf Q J [] (f a) e) ->
  master_may_write conf Q J toks (bindM m f) e.
Proof.
  intros Qn Qt Hm Hf w. destruct (Hm w) as (x1 & P1 & E1). unfold bindM.
  destruct (m e w) as [[ex|a] w1]; cbn [fst snd] in *.
  - exists x1. split; assumption.
  - destruct (Hf a w1) as (x2 & P2 & E2). apply prefix_nil_inv in P2 as ->.
    exists x1. split; [exact P1|]. rewrite <- (app_nil_r x1).
    apply (job_eff_comp conf Q Qt) with w1; assumption.
Qed.

Lemma all_nm_same conf w w' : hdfs_same w w' -> all_nm conf w w'.
Proof. intros H K. apply nm_at_same, H. Qed.

Lemma all_nm_trans conf w1 w2 w3 : all_nm conf w1 w2 -> all_nm conf w2 w3 -> all_nm conf w1 w3.
Proof. intros H1 H2 K. apply nm_at_trans with w2; [apply H1|apply H2]. Qed.

Lemma all_nm_wl conf J W d : Post (all_nm conf) (hdfs_write (worklist_path conf J W) (dumps d)).
Proof. intros e w K. apply write_other_nm, store_not_master. Qed.

Lemma mw_post {A} conf Q J (m : M A) e :
  (forall K w w', nm_at conf K w w' -> Q K w w') ->
  Post (all_nm conf) m -> master_writes conf Q J [] m e.
Proof. intros Qn H. apply (mw_nm conf Q Qn). intros w K. apply H. Qed.

Lemma prepare_may_write conf J e :
  master_may_write conf (nm_at conf) J ["stage2prepareBlocklist"; "stage2copyblocks"]
    (prepare_blocklists conf J) e.
Proof.
  pose proof (all_nm_same conf) as Rs. pose proof (all_nm_trans conf) as Rt.
  pose proof (all_nm_wl conf) as Rw.
  unfold prepare_blocklists.
  apply (mmw_bind conf _ J _ _ [] _ _ e (fun _ _ _ H => H) (nm_at_trans conf) eq_refl).
  { apply mw_post; [exact (fun _ _ _ H => H)|]. post_auto. }
  intros e'. apply (mmw_bind conf _ J _ _ [] _ _ e (fun _ _ _ H => H) (nm_at_trans conf) eq_refl).
  { apply mw_post; [exact (fun _ _ _ H => H)|]. post_auto. }
  intros [|]; cbn [negb].
  2: { apply mmw_weaken, mmw_of_mw. eapply mw_ret; qside. }
  apply mmw_of_mw. unfold set_status.
  mwb ["stage2prepareBlocklist"] ["stage2copyblocks"]; [eapply mw_write_master; qside|].
  mwb (@nil string) ["stage2copyblocks"].
  { apply mw_post; [exact (fun _ _ _ H => H)|]. apply post_get_target; assumption. }
  mwb (@nil string) ["stage2copyblocks"].
  { apply mw_post; [exact (fun _ _ _ H => H)|]. apply post_collect; assumption. }
  mwb (@nil string) ["stage2copyblocks"].
  { apply mw_post; [exact (fun _ _ _ H => H)|]. post_auto. intros. apply Rw. }
  mwb ["stage2copyblocks"] (@nil string); [eapply mw_write_master; qside|].
  eapply mw_ret; qside.
Qed.

Lemma discovery_step_may_write conf J e :
  master_may_write conf (nm_at conf) J ["stage2prepareBlocklist"; "stage2copyblocks"]
    (discovery_pass conf [J]) e.
Proof.
  pose proof (all_nm_same conf) as Rs. pose proof (all_nm_trans conf) as Rt.
  unfold discovery_pass. cbn [forM_].
  apply (mmw_bind_nil conf _ J _ _ _ e (fun _ _ _ H => H) (nm_at_trans conf)).
  2: { intros. apply mmw_of_mw. eapply mw_ret; qside. }
  apply (mmw_bind conf _ J _ _ [] _ _ e (fun _ _ _ H => H) (nm_at_trans conf) eq_refl).
  { apply mw_post; [exact (fun _ _ _ H => H)|]. post_auto. }
  intros [|].
  - apply (mmw_bind_nil conf _ J _ _ _ e (fun _ _ _ H => H) (nm_at_trans conf)).
    + apply prepare_may_write.
    + intros r. apply mmw_of_mw. destruct (_ || _); [eapply mw_ret|eapply mw_raise]; qside.
  - apply mmw_weaken, mmw_of_mw. eapply mw_ret; qside.
Qed.

Lemma discovery_pass_cons conf J L e w :
  discovery_pass conf (J :: L) e w =
  match discovery_pass conf [J] e w with
  | (inl x, w1) => (inl x, w1)
  | (inr _, w1) => discovery_pass conf L e w1
  end.
Proof.
  unfold discovery_pass. cbn [forM_]. unfold bindM, ret.
  match goal with |- match ?m with _ => _ end = _ => destruct m as [[x|u] w1] end; reflexivity.
Qed.

Lemma mapM_sel {A} (f : A -> M (list string)) (g : A -> string) (P : string -> Prop) e w dl sel :
  (forall x y, (f x e w).1 = inr y -> (f x e w).2 = w /\ (y = [] \/ (y = [g x] /\ P (g x)))) ->
  (mapM f dl e w).1 = inr sel ->
  List.concat sel `sublist_of` map g dl /\ forall J, J ∈ List.concat sel -> P J.
Proof.
  intros Hf. revert sel. induction dl as [|x dl IH]; intros sel H.
  - cbn in H. injection H as <-. split; [constructor|]. intros J HJ. apply elem_of_nil in HJ. contradiction.
  - cbn [mapM] in H. unfold bindM in H.
    specialize (Hf x). destruct (f x e w) as [[ex|y] w1]; [discriminate|].
    destruct (Hf y eq_refl) as [Hw Hy]. cbn [snd] in Hw. subst w1.
    destruct (mapM f dl e w) as [[ex|ys] w2] eqn:Hm; [discriminate|].
    cbn in H. injection H as <-. destruct (IH ys eq_refl) as [Hs HP]. cbn [List.concat map].
    destruct Hy as [->|[-> Hx]].
    + split; [apply sublist_cons, Hs|exact HP].
    + split; [apply sublist_skip, Hs|]. intros J HJ. apply elem_of_cons in HJ as [->|HJ]; auto.
Qed.

Lemma jobs_dir_master conf J : (jobs_dir conf ++ [J])%list = master_path conf J.
Proof. unfold jobs_dir, master_path, status_path. simpl. rewrite <- app_assoc. reflexivity. Qed.

Lemma child_names_NoDup n p : NoDup (child_names n p).
Proof.
  unfold child_names. rewrite merge_sort_Permutation. apply NoDup_remove_dups.
Qed.

(** The jobs listed in a status have that master status, each once. *)
Lemma get_jobs_spec conf s e w L :
  (get_jobs_by_status conf s e w).1 = inr L ->
  NoDup L /\ forall J, J ∈ L -> ns w !! master_path conf J = Some (EFile s).
Proof.
  unfold get_jobs_by_status, bindM, hdfs_content, gets, hdfs_list.
  destruct (hdfs_kind (ns w) (jobs_dir conf)); cbn [fst snd].
  2: { intros H. injection H as <-. split; [constructor|]. intros J HJ. apply elem_of_nil in HJ. contradiction. }
  case_bool_decide; [|discriminate].
  match goal with |- context [mapM ?f ?dl e w] =>
    destruct (mapM f dl e w) as [[ex|sel] w1] eqn:Hm; [discriminate|];
    pose proof (mapM_sel f fst (fun J => ns w !! master_path conf J = Some (EFile s)) e w dl sel) as Hsel
  end.
  cbn. intros HL. injection HL as <-. rewrite Hm in Hsel. destruct Hsel as [Hsub HP]; [|reflexivity|].
  - intros [nm k] y. cbn [fst snd]. destruct (String.eqb k "FILE"); cbn.
    + unfold hdfs_read, ret. cbn. destruct (ns w !! _) as [[c| |]|] eqn:Hc; cbn;
        try discriminate.
      destruct (String.eqb c s) eqn:Ec; intros Hy; injection Hy as <-; (split; [reflexivity|]).
      * right. apply String.eqb_eq in Ec. subst c. split; [reflexivity|rewrite jobs_dir_master in Hc; exact Hc].
      * left. reflexivity.
    + intros Hy. injection Hy as <-. split; [reflexivity|left; reflexivity].
  - split; [|exact HP]. eapply sublist_NoDup; [|exact Hsub].
    rewrite map_map. cbn. rewrite map_id. apply child_names_NoDup.
Qed.

(** ** The master status along sequential schedules *)

Lemma prefix_written_cases t :
  t `prefix_of` written_path -> exists n, n <= 5 /\ t = take n written_path.
Proof.
  intros [r Hr]. exists (List.length t). split.
  - apply (f_equal List.length) in Hr. rewrite length_app in Hr. simpl in Hr. lia.
  - rewrite Hr, take_app_length. reflexivity.
Qed.

Lemma written_last_complete t :
  t `prefix_of` written_path -> last t = Some "stage1complete" ->
  t = ["stage1init"; "stage1ingest"; "stage1complete"].
Proof.
  intros H Hl. destruct (prefix_written_cases t H) as (n & Hn & ->).
  do 6 (destruct n as [|n]; [cbn in Hl |- *; congruence|]). lia.
Qed.

Lemma sched_inv_all_nm conf used w w' :
  all_nm conf w w' -> sched_inv conf used w -> sched_inv conf used w'.
Proof.
  intros Hn Hi K. destruct (Hn K) as [Ht Hm]. rewrite Ht, Hm. apply Hi.
Qed.

Lemma sched_inv_discovery_step conf used J ext w w' :
  sched_inv conf used w ->
  ns w !! master_path conf J = Some (EFile "stage1complete") ->
  ext `prefix_of` ["stage2prepareBlocklist"; "stage2copyblocks"] ->
  job_eff conf (nm_at conf) J ext w w' ->
  sched_inv conf used w'.
Proof.
  intros Hi HJ Hp (Ho & Ht & Hm) K. destruct (decide (K = J)) as [->|HK].
  - destruct (Hi J) as (Hw & Hu & Hl).
    pose proof (written_last_complete _ Hw (Hl _ HJ)) as Et.
    rewrite Ht, Et. split; [|split].
    + destruct Hp as [r Hr]. exists r. rewrite <- app_assoc, <- Hr. reflexivity.
    + intros _. apply Hu. rewrite Et. discriminate.
    + intros c Hc. destruct (Hm c Hc) as [[-> Hc0]|Hc1].
      * rewrite app_nil_r, <- Et. apply Hl, Hc0.
      * rewrite last_app, Hc1. reflexivity.
  - destruct (Ho K HK) as [Ht' Hm']. rewrite Ht', Hm'. apply Hi.
Qed.

Lemma sched_inv_discovery conf used L e w :
  NoDup L ->
  (forall J, J ∈ L -> ns w !! master_path conf J = Some (EFile "stage1complete")) ->
  sched_inv conf used w ->
  sched_inv conf used (discovery_pass conf L e w).2.
Proof.
  revert w. induction L as [|J L IH]; intros w Hnd HL Hi; [exact Hi|].
  apply NoDup_cons in Hnd as [HJL Hnd].
  rewrite discovery_pass_cons.
  destruct (discovery_step_may_write conf J e w) as (ext & Hp & Heff).
  assert (Hi1 : sched_inv conf used (discovery_pass conf [J] e w).2).
  { apply (sched_inv_discovery_step conf used J ext w); try assumption.
    apply HL, elem_of_cons. left. reflexivity. }
  destruct (discovery_pass conf [J] e w) as [[x|u] w1]; cbn [snd] in *; [exact Hi1|].
  apply IH; [exact Hnd| |exact Hi1].
  intros K HK. destruct Heff as (Ho & _ & _).
  assert (Hne : K <> J) by (intros ->; contradiction).
  destruct (Ho K Hne) as [_ Hm]. rewrite Hm. apply HL, elem_of_cons. right. exact HK.
Qed.

Lemma bind_ask {B} (f : Env -> M B) e w : bindM ask f e w = f e e w.
Proof. reflexivity. Qed.

Lemma sched_inv_worker conf used e w :
  sched_inv conf used w -> sched_inv conf used (worker_workflow conf e w).2.
Proof.
  pose proof (all_nm_same conf) as Rs. pose proof (all_nm_trans conf) as Rt.
  pose proof (all_nm_wl conf) as Rw.
  intros Hi. unfold worker_workflow. rewrite bind_ask.
  pose proof (post_get_jobs _ Rs Rt conf "stage1complete" e w) as HGw.
  pose proof (get_jobs_spec conf "stage1complete" e w) as HGs.
  destruct (get_jobs_by_status conf "stage1complete" e w) as [[x|L] w1] eqn:HG;
    cbn [snd fst] in HGw, HGs.
  { rewrite (bind_err _ _ _ _ _ _ HG). exact (sched_inv_all_nm _ _ _ _ HGw Hi). }
  rewrite (bind_ok _ _ _ _ _ _ HG).
  destruct (HGs L eq_refl) as [Hnd HL].
  pose proof (sched_inv_discovery conf used L e w1 Hnd) as HD.
  destruct (discovery_pass conf L e w1) as [[x|u] w2] eqn:HDe; cbn [snd] in HD;
    unfold bindM at 1; rewrite HDe.
  - apply HD; [|exact (sched_inv_all_nm _ _ _ _ HGw Hi)].
    intros J HJ. destruct (HGw J) as [_ Hm]. rewrite Hm. apply HL, HJ.
  - apply (sched_inv_all_nm conf used w2).
    + assert (Ht : Post (all_nm conf)
        (let* joblist := get_jobs_by_status conf "stage2copyblocks" in
         match joblist with [] => ret tt | _ => preserve_pass conf (identity e) joblist end)).
      { post_auto. - apply post_get_jobs; assumption. - apply post_preserve_pass; assumption. }
      apply Ht.
    + apply HD; [|exact (sched_inv_all_nm _ _ _ _ HGw Hi)].
      intros J HJ. destruct (HGw J) as [_ Hm]. rewrite Hm. apply HL, HJ.
Qed.

Lemma sched_inv_client conf used args e w :
  uuid e ∉ used -> sched_inv conf used w ->
  sched_inv conf (uuid e :: used) (client_workflow conf args e w).2.
Proof.
  intros Hnew Hi. destruct (client_master_writes conf args e w) as (ext & Hp & _ & Ho & Ht & Hm).
  intros K. destruct (decide (K = uuid e)) as [->|HK].
  - destruct (Hi (uuid e)) as (Hw & Hu & Hl).
    assert (E0 : master_trace conf (uuid e) (wlog w) = []).
    { destruct (master_trace conf (uuid e) (wlog w)) eqn:E; [reflexivity|].
      exfalso. apply Hnew, Hu. discriminate. }
    rewrite Ht, E0. cbn [app]. split; [|split].
    + destruct Hp as [r Hr]. exists (r ++ ["stage2prepareBlocklist"; "stage2copyblocks"])%list.
      rewrite app_assoc, <- Hr. reflexivity.
    + intros _. apply elem_of_cons. left. reflexivity.
    + intros c Hc. destruct (Hm c Hc) as [[-> Hc0]|Hc1]; [|exact Hc1].
      rewrite <- E0. apply Hl, Hc0.
  - destruct (Ho K HK) as [Ht' Hm']. destruct (Hi K) as (Hw & Hu & Hl).
    rewrite Ht'. split; [exact Hw|split].
    + intros Hne. apply elem_of_cons. right. apply Hu, Hne.
    + intros c Hc. apply Hl, Hm', Hc.
Qed.

Lemma sched_inv_run conf sched : forall used w,
  NoDup (client_uuids sched) ->
  (forall u, u ∈ client_uuids sched -> u ∉ used) ->
  sched_inv conf used w ->
  exists used', sched_inv conf used' (run_schedule conf sched w).
Proof.
  induction sched as [|[inv e] sched IH]; intros used w Hnd Hfresh Hi.
  { exists used. exact Hi. }
  unfold run_schedule. cbn [fold_left]. fold (run_schedule conf sched).
  unfold run_invocation. cbn [fst snd].
  destruct inv as [args| |]; cbn [client_uuids omap fst snd] in Hnd, Hfresh.
  - change (client_uuids ((IClient args, e) :: sched)) with (uuid e :: client_uuids sched) in *.
    apply NoDup_cons in Hnd as [Hn Hnd].
    apply (IH (uuid e :: used)); [exact Hnd| |].
    + intros u Hu Hin. apply elem_of_cons in Hin as [->|Hin].
      * contradiction.
      * apply (Hfresh u); [apply elem_of_cons; right; exact Hu|exact Hin].
    + apply sched_inv_client; [apply Hfresh, elem_of_cons; left; reflexivity|exact Hi].
  - apply (IH used); [exact Hnd|exact Hfresh|apply sched_inv_worker, Hi].
  - apply (IH used); [exact Hnd|exact Hfresh|exact Hi].
Qed.

Lemma sched_inv_init conf w0 :
  wlog w0 = [] -> (forall K c, ns w0 !! master_path conf K <> Some (EFile c)) ->
  sched_inv conf [] w0.
Proof.
  intros Hl Hn K. rewrite Hl. split; [apply prefix_nil|split].
  - intros H. exfalso. apply H. reflexivity.
  - intros c Hc. exfalso. exact (Hn K c Hc).
Qed.

Lemma dedup_written n : n <= 5 -> dedup_adj (take n written_path) = take n written_path.
Proof. intros Hn. do 6 (destruct n as [|n]; [vm_compute; reflexivity|]). lia. Qed.

Lemma written_prefix_canonical t :
  t `prefix_of` written_path -> dedup_adj t `sublist_of` canonical.
Proof.
  intros H. destruct (prefix_written_cases t H) as (n & Hn & ->).
  assert (Hs : written_path `sublist_of` canonical).
  { unfold written_path, canonical.
    repeat first [ apply sublist_nil | apply sublist_skip | apply sublist_cons ]. }
  rewrite (dedup_written n Hn). etransitivity; [apply sublist_take|exact Hs].
Qed.

(** C7 (as stated, refuted): a single client run that submits job J1
    writes stage1init, stage1ingest, stage1complete to its master status,
    which is not a prefix of the canonical progression (stage1ingestComplete
    goes to the data status only).  And when worker 10.0.0.2 lists J1 as
    stage1complete, worker 10.0.0.1 then takes the lease and brings J1 to
    stage2copyblocks, and 10.0.0.2 continues after the lease has expired,
    the master status moves back from stage2copyblocks to
    stage2prepareBlocklist. *)
Lemma master_status_off_canonical :
  let t1 := master_trace cf "J1"
              (wlog (run_schedule cf [(IClient shred_x_args, env_at "10.0.0.9" "J1" 0 true)] w_user)) in
  let t2 := master_trace cf "J1" (wlog w_race) in
  t1 = ["stage1init"; "stage1ingest"; "stage1complete"] /\
  ~ dedup_adj t1 `prefix_of` canonical /\
  t2 = ["stage1init"; "stage1ingest"; "stage1complete"; "stage2prepareBlocklist";
        "stage2copyblocks"; "stage2prepareBlocklist"; "stage2copyblocks"] /\
  ~ dedup_adj t2 `sublist_of` canonical.
Proof.
  cbv zeta.
  assert (E1 : master_trace cf "J1"
                 (wlog (run_schedule cf [(IClient shred_x_args, env_at "10.0.0.9" "J1" 0 true)] w_user))
               = ["stage1init"; "stage1ingest"; "stage1complete"]) by (vm_compute; reflexivity).
  assert (E2 : master_trace cf "J1" (wlog w_race)
               = ["stage1init"; "stage1ingest"; "stage1complete"; "stage2prepareBlocklist";
                  "stage2copyblocks"; "stage2prepareBlocklist"; "stage2copyblocks"])
    by (vm_compute; reflexivity).
  rewrite E1, E2. split; [reflexivity|split; [|split; [reflexivity|]]].
  - intros [r Hr]. vm_compute in Hr. discriminate.
  - intros Hs. apply sublist_NoDup in Hs.
    + assert (HN : bool_decide (NoDup (dedup_adj
                     ["stage1init"; "stage1ingest"; "stage1complete"; "stage2prepareBlocklist";
                      "stage2copyblocks"; "stage2prepareBlocklist"; "stage2copyblocks"])) = false)
        by (vm_compute; reflexivity).
      apply bool_decide_eq_false in HN. contradiction.
    + apply (bool_decide_unpack _). vm_compute. reflexivity.
Qed.

(** C7 (amended): in a sequential schedule of client, worker and shredder
    invocations with distinct client job ids, started from a world with an
    empty write log and no master status file, the master status tokens
    written for any job, deduplicated and in order of write, form a
    subsequence of the canonical progression: the master status never
    moves backwards. *)
Theorem master_trace_sequential conf sched w0 :
  wlog w0 = [] ->
  (forall K c, ns w0 !! master_path conf K <> Some (EFile c)) ->
  NoDup (client_uuids sched) ->
  forall J, dedup_adj (master_trace conf J (wlog (run_schedule conf sched w0))) `sublist_of` canonical.
Proof.
  intros Hl Hn Hnd J.
  destruct (sched_inv_run conf sched [] w0 Hnd) as [used Hi].
  - intros u _ Hu. apply elem_of_nil in Hu. exact Hu.
  - apply sched_inv_init; assumption.
  - destruct (Hi J) as [Hp _]. apply written_prefix_canonical, Hp.
Qed.

Lemma master_trace_sequential_witness :
  let sched := [(IClient shred_x_args, env_at "10.0.0.9" "J1" 0 true);
                (IWorker, env_at "10.0.0.1" "A" 20 true)] in
  wlog w_user = [] /\
  (forall K c, ns w_user !! master_path cf K <> Some (EFile c)) /\
  NoDup (client_uuids sched) /\
  dedup_adj (master_trace cf "J1" (wlog (run_schedule cf sched w_user))) `sublist_of` canonical.
Proof.
  cbv zeta.
  assert (Hl : wlog w_user = []) by reflexivity.
  assert (Hn : forall K c, ns w_user !! master_path cf K <> Some (EFile c)).
  { intros K c H.
    change (ns w_user) with ({[target_x := EFile "payload"]} : gmap (list string) Entry) in H.
    apply lookup_singleton_Some in H as [H _]. discriminate. }
  assert (Hnd : NoDup (client_uuids [(IClient shred_x_args, env_at "10.0.0.9" "J1" 0 true);
                                     (IWorker, env_at "10.0.0.1" "A" 20 true)]))
    by (apply (bool_decide_unpack _); vm_compute; reflexivity).
  split; [exact Hl|split; [exact Hn|split; [exact Hnd|]]].
  exact (master_trace_sequential cf _ w_user Hl Hn Hnd "J1").
Defined.

(** * Further properties of the program *)

(** ** Listing jobs by status *)

Lemma mapM_pure {A B} (f : A -> M B) (g : A -> B) e w l :
  (forall x, x ∈ l -> f x e w = (inr (g x), w)) -> mapM f l e w = (inr (map g l), w).
Proof.
  induction l as [|x l IH]; intros Hf; [reflexivity|].
  cbn [mapM]. unfold bindM. rewrite Hf by (apply elem_of_cons; left; reflexivity).
  rewrite IH by (intros y Hy; apply Hf, elem_of_cons; right; exact Hy). reflexivity.
Qed.

Lemma child_names_elem n p J x : n !! (p ++ [J])%list = Some x -> J ∈ child_names n p.
Proof.
  intros H. unfold child_names. rewrite merge_sort_Permutation.
  apply elem_of_remove_dups, list_elem_of_omap. exists ((p ++ [J])%list, x). split.
  - apply elem_of_map_to_list. exact H.
  - cbn [fst]. unfold strict_prefix. rewrite bool_decide_eq_true_2.
    + apply list_lookup_middle. reflexivity.
    + split; [exists [J]; reflexivity|]. intros E. apply (f_equal List.length) in E.
      rewrite length_app in E. cbn in E. lia.
Qed.

Lemma hdfs_kind_efile n p c : n !! p = Some (EFile c) -> hdfs_kind n p = Some "FILE".
Proof. intros H. unfold hdfs_kind. rewrite H. reflexivity. Qed.

(** When the jobs directory exists, [get_jobs_by_status(s)] never fails
    and changes nothing, and it lists exactly the jobs whose master status
    file holds [s], each once. *)
Theorem get_jobs_by_status_exact conf s e w :
  hdfs_kind (ns w) (jobs_dir conf) = Some "DIRECTORY" ->
  exists L, get_jobs_by_status conf s e w = (inr L, w) /\ NoDup L /\
            forall J, J ∈ L <-> ns w !! master_path conf J = Some (EFile s).
Proof.
  intros Hd.
  set (g := fun item : string * string =>
              if String.eqb item.2 "FILE" then
                match ns w !! (jobs_dir conf ++ [item.1])%list with
                | Some (EFile c) => if String.eqb c s then [item.1] else []
                | _ => []
                end
              else []).
  set (dl := map (fun nm => (nm, default EmptyString (hdfs_kind (ns w) (jobs_dir conf ++ [nm])%list)))
                 (child_names (ns w) (jobs_dir conf))).
  assert (Hm : forall f, (forall x, x ∈ dl -> f x e w = (inr (g x), w)) ->
               mapM f dl e w = (inr (map g dl), w)) by (intros f; apply mapM_pure).
  exists (List.concat (map g dl)).
  assert (Heq : get_jobs_by_status conf s e w = (inr (List.concat (map g dl)), w)).
  { unfold get_jobs_by_status, bindM, hdfs_content, gets, hdfs_list. rewrite Hd. cbn [fst snd].
    rewrite bool_decide_eq_true_2 by exact Hd. fold dl.
    rewrite Hm; [reflexivity|]. intros [nm k] Hx. unfold g. cbn [fst snd].
    destruct (String.eqb k "FILE") eqn:Ek; [|reflexivity].
    apply list_elem_of_In, in_map_iff in Hx as [nm' [E _]]. injection E as E1 E2. subst nm' k.
    apply String.eqb_eq in Ek. unfold hdfs_read, ret, bindM.
    destruct (ns w !! (jobs_dir conf ++ [nm])%list) as [[c| |]|] eqn:Hc;
      [reflexivity| | |]; unfold hdfs_kind in Ek; rewrite Hc in Ek; cbn in Ek; try discriminate.
    destruct (bool_decide _ || _); discriminate. }
  split; [exact Heq|].
  destruct (get_jobs_spec conf s e w (List.concat (map g dl))) as [Hnd Hsp]; [rewrite Heq; reflexivity|].
  split; [exact Hnd|]. intros J. split; [apply Hsp|]. intros HJ.
  apply list_elem_of_In, in_concat. exists (g (J, "FILE")). split.
  - apply in_map_iff. exists (J, "FILE"). split; [reflexivity|].
    apply in_map_iff. exists J. split.
    + rewrite jobs_dir_master, (hdfs_kind_efile _ _ s HJ). reflexivity.
    + apply list_elem_of_In, (child_names_elem _ _ _ (EFile s)). rewrite jobs_dir_master. exact HJ.
  - unfold g. cbn [fst snd]. rewrite jobs_dir_master, HJ, !String.eqb_refl. left. reflexivity.
Qed.

Lemma get_jobs_by_status_exact_witness :
  hdfs_kind (ns w_stage1) (jobs_dir cf) = Some "DIRECTORY" /\
  exists L, get_jobs_by_status cf "stage1complete" (env_at "10.0.0.1" "u1" 0 true) w_stage1 = (inr L, w_stage1) /\
            NoDup L /\
            forall J, J ∈ L <-> ns w_stage1 !! master_path cf J = Some (EFile "stage1complete").
Proof.
  assert (H : hdfs_kind (ns w_stage1) (jobs_dir cf) = Some "DIRECTORY") by (vm_compute; reflexivity).
  split; [exact H | exact (get_jobs_by_status_exact cf "stage1complete" _ _ H)].
Defined.

(** [get_jobs_by_status] when there is no jobs directory returns the
    empty list; when the jobs path is a file or a symbolic link,
    [hdfs.list] raises [HdfsError], which the function does not catch.
    Neither case changes the world. *)
Theorem get_jobs_by_status_no_dir conf s e w :
  (hdfs_kind (ns w) (jobs_dir conf) = None -> get_jobs_by_status conf s e w = (inr [], w)) /\
  (forall k, hdfs_kind (ns w) (jobs_dir conf) = Some k -> k <> "DIRECTORY" ->
             get_jobs_by_status conf s e w = (inl HdfsError, w)).
Proof.
  unfold get_jobs_by_status, bindM, hdfs_content, gets, hdfs_list. cbn [fst snd]. split.
  - intros Hk. rewrite Hk. reflexivity.
  - intros k Hk Hne. rewrite Hk. rewrite bool_decide_eq_false_2; [reflexivity|].
    intros E. apply Hne. congruence.
Qed.

Lemma get_jobs_by_status_no_dir_witness :
  hdfs_kind (ns empty_world) (jobs_dir cf) = None /\
  get_jobs_by_status cf "stage1complete" (env_at "10.0.0.1" "u1" 0 true) empty_world = (inr [], empty_world) /\
  hdfs_kind (ns (with_ns {[jobs_dir cf := EFile ""]})) (jobs_dir cf) = Some "FILE" /\
  get_jobs_by_status cf "stage1complete" (env_at "10.0.0.1" "u1" 0 true) (with_ns {[jobs_dir cf := EFile ""]})
    = (inl HdfsError, with_ns {[jobs_dir cf := EFile ""]}).
Proof.
  assert (H1 : hdfs_kind (ns empty_world) (jobs_dir cf) = None) by (vm_compute; reflexivity).
  assert (H2 : hdfs_kind (ns (with_ns {[jobs_dir cf := EFile ""]})) (jobs_dir cf) = Some "FILE")
    by (vm_compute; reflexivity).
  split; [exact H1|]. split; [exact (proj1 (get_jobs_by_status_no_dir cf _ _ _) H1)|].
  split; [exact H2|]. apply (proj2 (get_jobs_by_status_no_dir cf _ _ _) "FILE" H2). discriminate.
Defined.

(** ** Status and worklist paths *)

(** Status files never collide when job ids, components and worker
    names are plain file names (so that [os.path.join] gives one path
    component each): [status_path] is injective in the job and the
    component, and the worklist file of worker [W] for job [J] is a status
    file only when [W] is ["status"], where it is the data status file of
    [J]. *)
Theorem status_path_inj conf J c J' c' W :
  plain_name J -> plain_name c -> plain_name J' -> plain_name c' -> plain_name W ->
  (status_path conf J c = status_path conf J' c' <-> J = J' /\ c = c') /\
  (worklist_path conf J W = status_path conf J' c <-> J = J' /\ W = "status" /\ c = "data").
Proof.
  intros _ _ _ _ _. unfold status_path, worklist_path. split.
  - split; [|intros [-> ->]; reflexivity].
    destruct (String.eqb_spec c "master"), (String.eqb_spec c "data"),
             (String.eqb_spec c' "master"), (String.eqb_spec c' "data");
      subst; try discriminate; intros E; apply app_inv_head in E;
      try discriminate; injection E; intros; subst; try contradiction; auto.
  - destruct (String.eqb_spec c "master") as [->|Hc1].
    + split; [intros E; apply app_inv_head in E; discriminate|intros (_ & _ & E); discriminate].
    + destruct (String.eqb_spec c "data") as [->|Hc2].
      * split; [intros E; apply app_inv_head in E; injection E as -> ->; tauto|].
        intros (-> & -> & _). reflexivity.
      * split; [intros E; apply app_inv_head in E; discriminate|intros (_ & _ & E); contradiction].
Qed.

Lemma status_path_inj_witness :
  plain_name "J1" /\ plain_name "data" /\ plain_name "status" /\
  worklist_path cf "J1" "status" = status_path cf "J1" "data".
Proof.
  assert (HJ : plain_name "J1") by (repeat split; discriminate).
  assert (Hd : plain_name "data") by (repeat split; discriminate).
  assert (Hs : plain_name "status") by (repeat split; discriminate).
  split; [exact HJ|]. split; [exact Hd|]. split; [exact Hs|].
  apply (proj2 (proj2 (status_path_inj cf "J1" "data" "J1" "data" "status" HJ Hd HJ Hd Hs))).
  repeat split.
Defined.

(** ** The worker's preserve pass *)

(** [preserve_pass] of worker [W] changes the HDFS namespace only at
    worklist files of [W] ([{root}/store/{job}/{W}]), and every HDFS write
    it makes goes to such a file: it never touches a status file, the data
    of a job, or the worklist of another worker. *)
Theorem preserve_pass_own_worklists conf W L e w :
  (forall p, (forall J, p <> worklist_path conf J W) ->
     ns (snd (preserve_pass conf W L e w)) !! p = ns w !! p) /\
  exists l, wlog (snd (preserve_pass conf W L e w)) = (wlog w ++ l)%list /\
            forall pc, pc ∈ l -> exists J, pc.1 = worklist_path conf J W.
Proof.
  set (R := fun w w' : World =>
    (forall p, (forall J, p <> worklist_path conf J W) -> ns w' !! p = ns w !! p) /\
    exists l, wlog w' = (wlog w ++ l)%list /\ forall pc, pc ∈ l -> exists J, pc.1 = worklist_path conf J W).
  assert (Rs : forall w w', hdfs_same w w' -> R w w').
  { intros w1 w2 [Hn Hl]. split; [intros p _; rewrite Hn; reflexivity|].
    exists []. rewrite Hl, app_nil_r. split; [reflexivity|]. intros pc Hpc. apply elem_of_nil in Hpc. contradiction. }
  assert (Rt : forall w1 w2 w3, R w1 w2 -> R w2 w3 -> R w1 w3).
  { intros w1 w2 w3 [Hn1 (l1 & Hl1 & Hp1)] [Hn2 (l2 & Hl2 & Hp2)]. split.
    - intros p Hp. rewrite Hn2, Hn1 by exact Hp. reflexivity.
    - exists (l1 ++ l2)%list. rewrite Hl2, Hl1, app_assoc. split; [reflexivity|].
      intros pc Hpc. apply elem_of_app in Hpc as [Hpc|Hpc]; auto. }
  assert (Hwl : forall J c, Post R (hdfs_write (worklist_path conf J W) c)).
  { intros J c e1 w1. unfold hdfs_write.
    destruct (existsb _ _); [apply Rs; split; reflexivity|].
    case_bool_decide; [apply Rs; split; reflexivity|]. cbn [snd]. split.
    - intros p Hp. cbn. apply lookup_insert_ne. intros E. exact (Hp J (eq_sym E)).
    - exists [(worklist_path conf J W, c)]. split; [reflexivity|].
      intros pc Hpc. apply elem_of_cons in Hpc as [->|Hpc]; [exists J; reflexivity|].
      apply elem_of_nil in Hpc. contradiction. }
  assert (H : Post R (preserve_pass conf W L)).
  { unfold preserve_pass. post_auto.
    - apply (post_read_own_worklist R Rs Rt).
    - apply (post_preserve_block R Rs Rt).
    - intros. apply Hwl. }
  exact (H e w).
Qed.

Lemma preserve_block_result conf b st e w r w' :
  preserve_block conf b st e w = (inr r, w') ->
  (st <> "new" -> r = st) /\ (st = "new" -> r = "linked" \/ r = "finding").
Proof.
  unfold preserve_block. destruct (String.eqb_spec st "new") as [->|Hne].
  - unfold bindM, run_shell_command, ret.
    destruct (map rstrip_nl _) as [|f [|f2 l]].
    + unfold log_error, modify. intros H. injection H as <- _. split; [congruence|auto].
    + unfold find_mount_point. cbn [fst snd].
      unfold local_exists. cbn [fst snd].
      destruct (lfs_present _ _); [|destruct (local_makedirs _ _ _) as [[x|[]] w1]];
        try (destruct (local_link _ _ _ _) as [[x|[]] w2]); intros Hr; try discriminate;
        injection Hr as <- _; split; congruence || auto.
    + unfold log_error, modify. intros H. injection H as <- _. split; [congruence|auto].
  - intros H. injection H as <- _. split; [reflexivity|contradiction].
Qed.

Lemma read_own_worklist_world conf W J e w : snd (read_own_worklist conf W J e w) = w.
Proof.
  unfold read_own_worklist, catch_hdfs, bindM, hdfs_read, lift, ret.
  destruct (ns w !! _) as [[c| |]|]; [destruct (loads c) as [[]|]|..]; reflexivity.
Qed.

Lemma mapM_same_world {A B} (f : A -> M B) e w l r w' :
  (forall x, snd (f x e w) = w) -> mapM f l e w = (r, w') ->
  w' = w /\ forall ys, r = inr ys -> Forall2 (fun x y => f x e w = (inr y, w)) l ys.
Proof.
  intros Hf. revert r w'. induction l as [|x l IH]; intros r w' H.
  - cbn in H. injection H as <- <-. split; [reflexivity|]. intros ys E. injection E as <-. constructor.
  - cbn [mapM] in H. unfold bindM in H. pose proof (Hf x) as Hx.
    destruct (f x e w) as [[ex|y] w1] eqn:E1; cbn [snd] in Hx; subst w1.
    + injection H as <- <-. split; [reflexivity|]. discriminate.
    + destruct (mapM f l e w) as [[ex|ys'] w2] eqn:E2;
        destruct (IH _ _ eq_refl) as [-> HF]; cbn in H; injection H as <- <-;
        (split; [reflexivity|]); [discriminate|].
      intros ys E. injection E as <-. constructor; [exact E1 | apply HF; reflexivity].
Qed.

Lemma mapM_Forall2 {A B} (f : A -> M B) (P : A -> B -> Prop) e l : forall w ys w',
  (forall x w y w', x ∈ l -> f x e w = (inr y, w') -> P x y) ->
  mapM f l e w = (inr ys, w') -> Forall2 P l ys.
Proof.
  induction l as [|x l IH]; intros w ys w' Hf H.
  - cbn in H. injection H as <- _. constructor.
  - cbn [mapM] in H. unfold bindM in H.
    destruct (f x e w) as [[ex|y] w1] eqn:E1; [discriminate|].
    destruct (mapM f l e w1) as [[ex|ys'] w2] eqn:E2; [discriminate|].
    cbn in H. injection H as <- _. constructor.
    + eapply Hf; [apply elem_of_cons; left; reflexivity | exact E1].
    + eapply IH; [|exact E2]. intros x' w3 y' w4 Hx. apply Hf. apply elem_of_cons. right. exact Hx.
Qed.

Lemma forM_log {A} (l : list A) (f : A -> M unit) (Q : list string * string -> Prop) :
  (forall x, x ∈ l -> forall e w, exists l', wlog (snd (f x e w)) = (wlog w ++ l')%list /\
                                             forall pc, pc ∈ l' -> Q pc) ->
  forall e w, exists l', wlog (snd (forM_ l f e w)) = (wlog w ++ l')%list /\ forall pc, pc ∈ l' -> Q pc.
Proof.
  intros Hf. induction l as [|x l IH]; intros e w.
  - exists []. rewrite app_nil_r. split; [reflexivity|]. intros pc Hpc. apply elem_of_nil in Hpc. contradiction.
  - cbn [forM_]. unfold bindM.
    destruct (Hf x (proj2 (elem_of_cons _ _ _) (or_introl eq_refl)) e w) as (l1 & Hl1 & Hq1).
    destruct (f x e w) as [[ex|[]] w1]; cbn [snd] in Hl1 |- *.
    + exists l1. auto.
    + destruct IH with (e := e) (w := w1) as (l2 & Hl2 & Hq2).
      { intros y Hy. apply Hf. apply elem_of_cons. right. exact Hy. }
      exists (l1 ++ l2)%list. rewrite Hl2, Hl1, app_assoc. split; [reflexivity|].
      intros pc Hpc. apply elem_of_app in Hpc as [Hpc|Hpc]; auto.
Qed.

Lemma Forall2_concat_elem {A B} (P : A -> list B -> Prop) (l : list A) (ys : list (list B)) (z : B) :
  Forall2 P l ys -> z ∈ List.concat ys -> exists x y, x ∈ l /\ P x y /\ z ∈ y.
Proof.
  induction 1 as [|x y l ys Hxy HF IH]; cbn [List.concat]; intros Hz.
  - apply elem_of_nil in Hz. contradiction.
  - apply elem_of_app in Hz as [Hz|Hz].
    + exists x, y. split; [apply elem_of_cons; left; reflexivity|]. auto.
    + destruct (IH Hz) as (x' & y' & Hx' & HP & Hz'). exists x', y'.
      split; [apply elem_of_cons; right; exact Hx'|]. auto.
Qed.

(** Every worklist file [preserve_pass] of worker [W] writes is the
    worklist [d] it read for that job at the start of the pass, with the
    same blocks in the same order: an entry that is not ["new"] keeps its
    state, and a ["new"] entry becomes ["linked"] or ["finding"]. *)
Theorem preserve_pass_rewrites conf W L e w :
  exists l, wlog (snd (preserve_pass conf W L e w)) = (wlog w ++ l)%list /\
  forall pc, pc ∈ l -> exists J d d',
    J ∈ L /\ read_own_worklist conf W J e w = (inr (Some d), w) /\
    pc.1 = worklist_path conf J W /\ pc.2 = dumps d' /\
    Forall2 (fun kv kv' => kv'.1 = kv.1 /\ (kv.2 <> "new" -> kv'.2 = kv.2) /\
                           (kv.2 = "new" -> kv'.2 = "linked" \/ kv'.2 = "finding")) d d'.
Proof.
  unfold preserve_pass. unfold bindM at 1.
  match goal with |- context [mapM ?g L e w] =>
    assert (Hg : forall J, snd (g J e w) = w);
    [| destruct (mapM g L e w) as [r w1] eqn:Hm;
       destruct (mapM_same_world g e w L r w1 Hg Hm) as [-> HF]; destruct r as [ex|tasks]]
  end.
  - intros J. unfold bindM, ret. pose proof (read_own_worklist_world conf W J e w) as Hw.
    destruct (read_own_worklist conf W J e w) as [[ex|bl] w2]; cbn [snd] in Hw |- *; exact Hw.
  - exists []. rewrite app_nil_r. split; [reflexivity|]. intros pc Hpc. apply elem_of_nil in Hpc. contradiction.
  - specialize (HF tasks eq_refl). cbn beta iota.
    destruct (List.concat tasks) as [|jt0 tl] eqn:Htl.
    { exists []. rewrite app_nil_r. split; [reflexivity|]. intros pc Hpc. apply elem_of_nil in Hpc. contradiction. }
    rewrite <- Htl.
    apply (forM_log _ _ (fun pc => exists J d d', J ∈ L /\ read_own_worklist conf W J e w = (inr (Some d), w) /\
      pc.1 = worklist_path conf J W /\ pc.2 = dumps d' /\
      Forall2 (fun kv kv' => kv'.1 = kv.1 /\ (kv.2 <> "new" -> kv'.2 = kv.2) /\
                             (kv.2 = "new" -> kv'.2 = "linked" \/ kv'.2 = "finding")) d d')).
    intros jt Hjt e1 w1.
    destruct (Forall2_concat_elem _ L tasks jt HF Hjt) as (J & y & HJ & Hy & Hjty).
    unfold bindM, ret in Hy. pose proof (read_own_worklist_world conf W J e w) as Hw.
    destruct (read_own_worklist conf W J e w) as [[ex|bl] w2] eqn:Er; [discriminate|].
    cbn [snd] in Hw. subst w2. destruct bl as [d|]; injection Hy as <-;
      [|apply elem_of_nil in Hjty; contradiction].
    apply elem_of_cons in Hjty as [->|Hjty]; [|apply elem_of_nil in Hjty; contradiction].
    cbn [fst snd]. unfold bindM at 1.
    assert (Hp : Post hdfs_same (mapM (fun kv => let* st := preserve_block conf kv.1 kv.2 in ret (kv.1, st)) d)).
    { assert (Ht : forall w1 w2 w3, hdfs_same w1 w2 -> hdfs_same w2 w3 -> hdfs_same w1 w3).
      { intros ? ? ? [A1 B1] [A2 B2]. split; congruence. }
      assert (Hs : forall w1 w2, hdfs_same w1 w2 -> hdfs_same w1 w2) by auto.
      post_auto. apply (post_preserve_block hdfs_same Hs Ht). }
    specialize (Hp e1 w1).
    destruct (mapM (fun kv => let* st := preserve_block conf kv.1 kv.2 in ret (kv.1, st)) d e1 w1)
      as [[ex|upd] w3] eqn:Eu; cbn [snd] in Hp |- *; destruct Hp as [_ Hl].
    + exists []. rewrite Hl, app_nil_r. split; [reflexivity|].
      intros pc Hpc. apply elem_of_nil in Hpc. contradiction.
    + assert (HF2 : Forall2 (fun kv kv' => kv'.1 = kv.1 /\ (kv.2 <> "new" -> kv'.2 = kv.2) /\
                             (kv.2 = "new" -> kv'.2 = "linked" \/ kv'.2 = "finding")) d upd).
      { eapply mapM_Forall2; [|exact Eu]. intros [b st] w4 y w5 _. cbn [fst snd].
        unfold bindM, ret. destruct (preserve_block conf b st e1 w4) as [[ex|r] w6] eqn:Eb; [discriminate|].
        intros Hy. injection Hy as <- _. cbn [fst snd]. split; [reflexivity|].
        exact (preserve_block_result conf b st e1 w4 r w6 Eb). }
      unfold hdfs_write.
      destruct (existsb _ _); [|case_bool_decide]; cbn [snd].
      * exists []. rewrite Hl, app_nil_r. split; [reflexivity|].
        intros pc Hpc. apply elem_of_nil in Hpc. contradiction.
      * exists []. rewrite Hl, app_nil_r. split; [reflexivity|].
        intros pc Hpc. apply elem_of_nil in Hpc. contradiction.
      * exists [(worklist_path conf J W, dumps upd)]. cbn. rewrite Hl. split; [reflexivity|].
        intros pc Hpc. apply elem_of_cons in Hpc as [->|Hpc]; [|apply elem_of_nil in Hpc; contradiction].
        exists J, d, upd. cbn [fst snd]. auto.
Qed.

(** ** Blocklist preparation under the lease *)

Lemma bind_inr_inv {A B} (m : M A) (f : A -> M B) e w r w' :
  bindM m f e w = (inr r, w') -> exists a w1, m e w = (inr a, w1) /\ f a e w1 = (inr r, w').
Proof.
  unfold bindM. destruct (m e w) as [[ex|a] w1]; [discriminate|]. intros H. exists a, w1. auto.
Qed.

(** [prepare_blocklists] returns only ["success"] or ["pipped"], so the
    [raise] of [worker_workflow] for other results is never reached; it
    returns ["pipped"] exactly when another, unexpired holder has the
    lease, and then it has only created the ZooKeeper node of the lease:
    the HDFS namespace, the write log and the leases are unchanged. *)
Theorem prepare_blocklists_pipped conf J e w :
  (forall r w', prepare_blocklists conf J e w = (inr r, w') -> r = "success" \/ r = "pipped") /\
  (forall holder t, zk_leases w !! (ZK_PATH conf +s+ J) = Some (holder, t) ->
     holder <> lease_ident (identity e) J -> now e < t ->
     prepare_blocklists conf J e w =
       (inr "pipped", set_zk ({[ZK_PATH conf +s+ J]} ∪ zk_nodes w) (zk_leases w) w)) /\
  (forall w', prepare_blocklists conf J e w = (inr "pipped", w') ->
     exists holder t, zk_leases w !! (ZK_PATH conf +s+ J) = Some (holder, t) /\
       holder <> lease_ident (identity e) J /\ now e < t).
Proof.
  split; [|split].
  - intros r w' H. unfold prepare_blocklists in H.
    apply bind_inr_inv in H as (e' & w1 & He & H). unfold ask in He. injection He as <- <-.
    apply bind_inr_inv in H as (l & w2 & Hl & H).
    destruct l; cbn [negb] in H.
    + repeat (apply bind_inr_inv in H as (? & ? & ? & H)).
      unfold ret in H. injection H as <- _. left. reflexivity.
    + unfold ret in H. injection H as <- _. right. reflexivity.
  - intros holder t Hh Hne Ht. unfold prepare_blocklists, bindM, ask, nonblocking_lease.
    rewrite Hh. cbn [fst snd]. destruct (String.eqb_spec holder (lease_ident (identity e) J)); [contradiction|].
    apply Nat.ltb_lt in Ht. rewrite Ht. reflexivity.
  - intros w' H. unfold prepare_blocklists in H.
    apply bind_inr_inv in H as (e' & w1 & He & H). unfold ask in He. injection He as <- <-.
    apply bind_inr_inv in H as (l & w2 & Hl & H).
    destruct l; cbn [negb] in H.
    + repeat (apply bind_inr_inv in H as (? & ? & ? & H)).
      unfold ret in H. injection H as H _. discriminate.
    + unfold nonblocking_lease in Hl.
      destruct (zk_leases w !! (ZK_PATH conf +s+ J)) as [[holder t]|]; [|discriminate].
      exists holder, t. split; [reflexivity|].
      destruct (String.eqb_spec holder (lease_ident (identity e) J)); [discriminate|].
      destruct (now e <? t)%nat eqn:Et; [|discriminate].
      apply Nat.ltb_lt in Et. auto.
Qed.

Lemma prepare_blocklists_pipped_witness :
  let w := set_zk (zk_nodes w_two_targets)
             {[ "/shred/J1" := (lease_ident "10.0.0.2" "J1", 10) ]} w_two_targets in
  let e := env_at "10.0.0.1" "u1" 3 true in
  zk_leases w !! (ZK_PATH cf +s+ "J1") = Some (lease_ident "10.0.0.2" "J1", 10) /\
  lease_ident "10.0.0.2" "J1" <> lease_ident (identity e) "J1" /\ now e < 10 /\
  prepare_blocklists cf "J1" e w =
    (inr "pipped", set_zk ({[ZK_PATH cf +s+ "J1"]} ∪ zk_nodes w) (zk_leases w) w).
Proof.
  intros w e.
  assert (H1 : zk_leases w !! (ZK_PATH cf +s+ "J1") = Some (lease_ident "10.0.0.2" "J1", 10))
    by (vm_compute; reflexivity).
  assert (H2 : lease_ident "10.0.0.2" "J1" <> lease_ident (identity e) "J1") by (vm_compute; discriminate).
  assert (H3 : now e < 10) by (vm_compute; lia).
  split; [exact H1|]. split; [exact H2|]. split; [exact H3|].
  exact (proj1 (proj2 (prepare_blocklists_pipped cf "J1" e w)) _ _ H1 H2 H3).
Defined.

(** ** Targets of a job *)

Lemma child_names_iff n p nm :
  nm ∈ child_names n p <-> exists k x, n !! k = Some x /\ (p ++ [nm])%list `prefix_of` k.
Proof.
  unfold child_names. rewrite merge_sort_Permutation, elem_of_remove_dups, list_elem_of_omap. split.
  - intros ([k x] & Hkx & Hs). apply elem_of_map_to_list in Hkx. cbn [fst] in Hs.
    unfold strict_prefix in Hs. case_bool_decide as Hp; [|discriminate].
    destruct Hp as [[r ->] Hne]. destruct r as [|a r]; [rewrite app_nil_r in Hne; contradiction|].
    rewrite list_lookup_middle in Hs by reflexivity. injection Hs as ->.
    exists (p ++ nm :: r)%list, x. split; [exact Hkx|]. exists r. rewrite <- app_assoc. reflexivity.
  - intros (k & x & Hk & [r ->]). exists ((p ++ [nm]) ++ r, x)%list. split.
    + apply elem_of_map_to_list. exact Hk.
    + cbn [fst]. unfold strict_prefix. rewrite <- app_assoc. cbn [app].
      rewrite bool_decide_eq_true_2.
      * apply list_lookup_middle. reflexivity.
      * split; [exists (nm :: r); reflexivity|]. intros E. apply (f_equal List.length) in E.
        rewrite length_app in E. cbn in E. lia.
Qed.

(** [get_target_by_jobid] raises [HdfsError] when the data directory of
    the job is missing or is not a directory; otherwise it returns, each
    once, the paths [{root}/store/{job}/data/{name}] of the entries
    directly inside it (files and subdirectories alike), and changes
    nothing. *)
Theorem get_target_by_jobid_spec conf J e w :
  (hdfs_kind (ns w) (data_path conf J) <> Some "DIRECTORY" ->
   get_target_by_jobid conf J e w = (inl HdfsError, w)) /\
  (hdfs_kind (ns w) (data_path conf J) = Some "DIRECTORY" ->
   exists ts, get_target_by_jobid conf J e w = (inr ts, w) /\ NoDup ts /\
     forall t, t ∈ ts <-> exists nm, t = (data_path conf J ++ [nm])%list /\
                          exists k x, ns w !! k = Some x /\ t `prefix_of` k).
Proof.
  unfold get_target_by_jobid, bindM, hdfs_list, ret. split.
  - intros H. rewrite bool_decide_eq_false_2 by exact H. reflexivity.
  - intros H. rewrite bool_decide_eq_true_2 by exact H. cbn [fst snd].
    eexists. split; [reflexivity|]. rewrite map_map. cbn [fst]. split.
    + apply NoDup_fmap_2_strong; [|apply child_names_NoDup].
      intros x y _ _ E. apply app_inv_head in E. injection E as E. exact E.
    + intros t. split.
      * intros Ht. apply list_elem_of_In, in_map_iff in Ht as (nm & <- & Hnm).
        exists nm. split; [reflexivity|]. apply child_names_iff, list_elem_of_In, Hnm.
      * intros (nm & -> & Hk). apply list_elem_of_In, in_map_iff. exists nm. split; [reflexivity|].
        apply list_elem_of_In, child_names_iff, Hk.
Qed.

Lemma get_target_by_jobid_spec_witness :
  let e := env_at "10.0.0.1" "u1" 0 true in
  hdfs_kind (ns w_two_targets) (data_path cf "J2") <> Some "DIRECTORY" /\
  get_target_by_jobid cf "J2" e w_two_targets = (inl HdfsError, w_two_targets) /\
  hdfs_kind (ns w_two_targets) (data_path cf "J1") = Some "DIRECTORY" /\
  exists ts, get_target_by_jobid cf "J1" e w_two_targets = (inr ts, w_two_targets) /\ NoDup ts /\
     forall t, t ∈ ts <-> exists nm, t = (data_path cf "J1" ++ [nm])%list /\
                          exists k x, ns w_two_targets !! k = Some x /\ t `prefix_of` k.
Proof.
  intros e.
  assert (H1 : hdfs_kind (ns w_two_targets) (data_path cf "J2") <> Some "DIRECTORY")
    by (vm_compute; discriminate).
  assert (H2 : hdfs_kind (ns w_two_targets) (data_path cf "J1") = Some "DIRECTORY")
    by (vm_compute; reflexivity).
  split; [exact H1|]. split; [exact (proj1 (get_target_by_jobid_spec cf "J2" e w_two_targets) H1)|].
  split; [exact H2|]. exact (proj2 (get_target_by_jobid_spec cf "J1" e w_two_targets) H2).
Defined.

(** ** A successful client run *)

Lemma hdfs_kind_none n p : hdfs_kind n p = None -> n !! p = None.
Proof. unfold hdfs_kind. destruct (n !! p) as [[]|]; congruence. Qed.

Lemma rekey_elem n src dst' c i x :
  n !! src = Some (EFile c) -> (forall k x, n !! k = Some x -> src `prefix_of` k -> k = src) ->
  n !! dst' = None ->
  (i, x) ∈ map (fun kv => (rekey src dst' kv.1, kv.2)) (map_to_list n) <->
  (i = dst' /\ x = EFile c) \/ (i <> dst' /\ i <> src /\ n !! i = Some x).
Proof.
  intros Hs Hb Hd. rewrite list_elem_of_In, in_map_iff. split.
  - intros ([k y] & E & Hk). apply list_elem_of_In, elem_of_map_to_list in Hk. cbn [fst snd] in E.
    injection E as <- <-. unfold rekey. case_bool_decide as Hp.
    + rewrite (Hb k y Hk Hp) in Hk |- *. rewrite drop_all, app_nil_r. left. split; [reflexivity|congruence].
    + right. split; [intros ->; congruence|]. split; [intros ->; apply Hp; reflexivity|exact Hk].
  - intros [[-> ->]|(Hi1 & Hi2 & Hi)].
    + exists (src, EFile c). split.
      * cbn [fst snd]. unfold rekey. rewrite bool_decide_eq_true_2 by reflexivity.
        rewrite drop_all, app_nil_r. reflexivity.
      * apply list_elem_of_In, elem_of_map_to_list. exact Hs.
    + exists (i, x). split.
      * cbn [fst snd]. unfold rekey. rewrite bool_decide_eq_false_2; [reflexivity|].
        intros Hp. exact (Hi2 (Hb i x Hi Hp)).
      * apply list_elem_of_In, elem_of_map_to_list. exact Hi.
Qed.

(** [hdfs.rename] of a file into an existing directory. *)
Lemma rename_file_ok src dst c e w :
  hdfs_kind (ns w) dst = Some "DIRECTORY" -> ns w !! src = Some (EFile c) ->
  (forall k x, ns w !! k = Some x -> src `prefix_of` k -> k = src) ->
  can_rename e src = true ->
  hdfs_kind (ns w) (dst ++ [default EmptyString (last src)])%list = None ->
  hdfs_rename src dst e w =
    (inr tt, set_ns (<[(dst ++ [default EmptyString (last src)])%list := EFile c]> (delete src (ns w))) w).
Proof.
  intros Hd Hs Hb Hr Hn. unfold hdfs_rename. rewrite bool_decide_eq_true_2 by exact Hd.
  rewrite Hr. cbn [negb]. rewrite (hdfs_kind_efile _ _ c Hs), Hn.
  set (dst' := (dst ++ [default EmptyString (last src)])%list) in *.
  apply hdfs_kind_none in Hn.
  do 3 f_equal. apply map_eq. intros i. apply option_eq. intros x.
  rewrite <- elem_of_list_to_map'.
  - rewrite rekey_elem by eassumption. rewrite lookup_insert_Some, lookup_delete_Some. naive_solver.
  - intros x'. rewrite !rekey_elem by eassumption. intros [[-> ->]|(H1 & H2 & H3)] [[E ->]|(H4 & H5 & H6)];
      congruence.
Qed.

Lemma existsb_false_intro {A} (f : A -> bool) l : (forall x, x ∈ l -> f x = false) -> existsb f l = false.
Proof.
  induction l as [|x l IH]; intros H; [reflexivity|]. cbn.
  rewrite H by (apply elem_of_cons; left; reflexivity). apply IH.
  intros y Hy. apply H, elem_of_cons. right. exact Hy.
Qed.

Section ClientSuccess.

Variables (conf : Conf) (J : string) (n n3 : gmap (list string) Entry) (target : list string) (c : string).
Hypothesis Hfresh : job_fresh conf J n.
Hypothesis Hgrown : status_grown conf J n n3.
Hypothesis Hkeep : forall k, k <> master_path conf J -> k <> status_path conf J "data" -> n3 !! k = n !! k.
Hypothesis Hm3 : exists cm, n3 !! master_path conf J = Some (EFile cm).
Hypothesis Hs3 : exists cs, n3 !! status_path conf J "data" = Some (EFile cs).
Hypothesis Htarget : n !! target = Some (EFile c).
Hypothesis Hbelow : forall k x, n !! k = Some x -> target `prefix_of` k -> k = target.

Local Abbreviation root := (HDFS_SHRED_PATH conf).
Local Abbreviation moved := (data_path conf J ++ [default EmptyString (last target)])%list.
Local Abbreviation n4 := (<[data_path conf J := EDir]> n3).
Local Abbreviation n5 := (<[moved := EFile c]> (delete target n4)).

Lemma shape_jobs : job_path_shape "jobs" [].
Proof. left. split; reflexivity. Qed.
Lemma shape_status : job_path_shape "store" ["status"].
Proof. right. split; [reflexivity|left; reflexivity]. Qed.
Lemma shape_data : job_path_shape "store" ["data"].
Proof. right. split; [reflexivity|right; reflexivity]. Qed.

Lemma shape_length a t : job_path_shape a t -> List.length (root ++ a :: J :: t)%list <= List.length root + 3.
Proof. intros [[_ ->]|[_ [-> | ->]]]; rewrite length_app; cbn; lia. Qed.

Lemma moved_length : List.length moved = List.length root + 4.
Proof. unfold data_path. rewrite !length_app. cbn. lia. Qed.

Lemma target_not_job a t : job_path_shape a t -> target <> (root ++ a :: J :: t)%list.
Proof. intros Ha E. apply (fresh_not_below conf J n Hfresh target (EFile c) a t Ha Htarget). rewrite E. reflexivity. Qed.

Lemma target_not_above a t : job_path_shape a t -> ~ target `prefix_of` (root ++ a :: J :: t)%list.
Proof. intros Ha Hp. pose proof (fresh_below_dir conf J n Hfresh target (EFile c) a t Ha Htarget Hp). discriminate. Qed.

Lemma target_not_moved : target <> moved.
Proof.
  intros E. apply (fresh_not_below conf J n Hfresh target (EFile c) "store" ["data"] shape_data Htarget).
  rewrite E. exists [default EmptyString (last target)]. reflexivity.
Qed.

Lemma moved_not_job a t : job_path_shape a t -> moved <> (root ++ a :: J :: t)%list.
Proof. intros Ha E. pose proof (shape_length a t Ha). rewrite <- E, moved_length in H. lia. Qed.

Lemma n4_data_dir : hdfs_kind n4 (data_path conf J) = Some "DIRECTORY".
Proof. unfold hdfs_kind. rewrite lookup_insert_eq. reflexivity. Qed.

Lemma n4_target : n4 !! target = Some (EFile c).
Proof.
  rewrite lookup_insert_ne by (apply not_eq_sym, (target_not_job _ _ shape_data)).
  rewrite Hkeep; [exact Htarget|apply (target_not_job _ _ shape_jobs)|apply (target_not_job _ _ shape_status)].
Qed.

Lemma n4_below k x : n4 !! k = Some x -> target `prefix_of` k -> k = target.
Proof.
  intros Hk Hp. rewrite lookup_insert in Hk. case_decide as E.
  - subst k. exfalso. exact (target_not_above _ _ shape_data Hp).
  - destruct (grown_cases conf J n n3 Hgrown k x Hk) as [Hn|(a & t & c' & Ha & _ & -> & _)].
    + exact (Hbelow k x Hn Hp).
    + exfalso. exact (target_not_above a t Ha Hp).
Qed.

Lemma n4_moved_free : hdfs_kind n4 moved = None.
Proof.
  unfold hdfs_kind. rewrite lookup_insert_ne.
  2:{ intros E. apply (f_equal List.length) in E. rewrite moved_length in E.
      unfold data_path in E. rewrite length_app in E. cbn in E. lia. }
  destruct (n3 !! moved) as [x|] eqn:Hm.
  - exfalso. destruct (grown_cases conf J n n3 Hgrown _ x Hm) as [Hn|(a & t & c' & Ha & _ & E & _)].
    + apply (fresh_not_below conf J n Hfresh _ x "store" ["data"] shape_data Hn).
      exists [default EmptyString (last target)]. reflexivity.
    + exact (moved_not_job a t Ha E).
  - rewrite bool_decide_eq_false_2.
    2:{ intros E. apply (f_equal List.length) in E. rewrite moved_length in E. cbn in E. lia. }
    rewrite existsb_false_intro; [reflexivity|]. intros [k x] Hk.
    apply elem_of_map_to_list in Hk. cbn [fst]. unfold strict_prefix.
    apply bool_decide_eq_false_2. intros [Hp Hne].
    assert (Hd : strict_prefix (data_path conf J) k = true).
    { unfold strict_prefix. apply bool_decide_eq_true_2. split.
      - etransitivity; [|exact Hp]. exists [default EmptyString (last target)]. reflexivity.
      - intros E. rewrite <- E in Hp. apply prefix_length in Hp. rewrite moved_length in Hp.
        unfold data_path in Hp. rewrite length_app in Hp. cbn in Hp. lia. }
    rewrite lookup_insert in Hk. case_decide as E.
    + subst k. unfold strict_prefix in Hd. apply bool_decide_eq_true_1 in Hd as [_ Hd]. contradiction.
    + pose proof (grown_nothing_below conf J n n3 Hfresh Hgrown "store" ["data"] k x shape_data Hk) as Hz.
      change (strict_prefix (data_path conf J) k = false) in Hz. congruence.
Qed.

(** No file on the way to a status path once the target is moved. *)
Lemma n5_no_file_above a t q :
  job_path_shape a t -> q ∈ strict_prefixes (root ++ a :: J :: t)%list -> is_hdfs_file n5 q = false.
Proof.
  intros Ha Hq. pose proof (strict_prefixes_spec _ _ Hq) as [_ Hl].
  pose proof (shape_length a t Ha). unfold is_hdfs_file.
  rewrite lookup_insert_ne by (intros E; subst q; rewrite moved_length in Hl; lia).
  rewrite lookup_delete. case_decide; [reflexivity|].
  rewrite lookup_insert. case_decide; [reflexivity|].
  fold (is_hdfs_file n3 q).
  apply (grown_no_file_above conf J n n3 Hfresh Hgrown a t q Ha). apply elem_of_app. left. exact Hq.
Qed.

Lemma n5_status_write :
  existsb (is_hdfs_file n5) (strict_prefixes (status_path conf J "data")) = false /\
  hdfs_kind n5 (status_path conf J "data") <> Some "DIRECTORY".
Proof.
  split.
  - apply existsb_false_intro. intros q Hq. exact (n5_no_file_above _ _ q shape_status Hq).
  - destruct Hs3 as [cs Hs]. rewrite (hdfs_kind_efile _ _ cs); [discriminate|].
    rewrite lookup_insert_ne by exact (moved_not_job _ _ shape_status).
    rewrite lookup_delete_ne by exact (target_not_job _ _ shape_status).
    rewrite lookup_insert_ne by (destruct (job_paths_distinct conf J) as (_ & _ & D); exact D).
    exact Hs.
Qed.

Lemma n6_master_write s :
  existsb (is_hdfs_file (<[status_path conf J "data" := EFile s]> n5)) (strict_prefixes (master_path conf J)) = false /\
  hdfs_kind (<[status_path conf J "data" := EFile s]> n5) (master_path conf J) <> Some "DIRECTORY".
Proof.
  destruct (job_paths_distinct conf J) as (D1 & D2 & D3). split.
  - apply existsb_false_intro. intros q Hq. unfold is_hdfs_file.
    rewrite lookup_insert_ne.
    + exact (n5_no_file_above _ _ q shape_jobs Hq).
    + intros <-. apply strict_prefixes_spec in Hq as [_ Hl]. unfold master_path, status_path in Hl.
      cbn in Hl. rewrite !length_app in Hl. cbn in Hl. lia.
  - destruct Hm3 as [cm Hm]. rewrite (hdfs_kind_efile _ _ cm); [discriminate|].
    rewrite lookup_insert_ne by congruence.
    rewrite lookup_insert_ne by exact (moved_not_job _ _ shape_jobs).
    rewrite lookup_delete_ne by exact (target_not_job _ _ shape_jobs).
    rewrite lookup_insert_ne by congruence. exact Hm.
Qed.

End ClientSuccess.

(** When the target is a file with nothing below it, the rename is allowed
    and the job's paths are fresh, the client run succeeds: the target is
    moved into the job's data directory under its own name, the master
    status reads stage1complete, the data status stage1ingestComplete, and
    six status writes are logged in order. *)
Theorem client_workflow_success conf args f c e w :
  args !! "file_to_shred" = Some f ->
  ns w !! realpath_comps (cwd e) f = Some (EFile c) ->
  (forall k x, ns w !! k = Some x -> realpath_comps (cwd e) f `prefix_of` k -> k = realpath_comps (cwd e) f) ->
  can_rename e (realpath_comps (cwd e) f) = true ->
  job_fresh conf (uuid e) (ns w) ->
  let target := realpath_comps (cwd e) f in
  let moved := (data_path conf (uuid e) ++ [default EmptyString (last target)])%list in
  let r := client_workflow conf args e w in
  r.1 = inr tt /\
  ns r.2 = <[master_path conf (uuid e) := EFile "stage1complete"]>
             (<[status_path conf (uuid e) "data" := EFile "stage1ingestComplete"]>
               (<[data_path conf (uuid e) := EDir]>
                 (<[moved := EFile c]> (delete target (ns w))))) /\
  wlog r.2 = (wlog w ++ [(master_path conf (uuid e), "stage1init");
                         (status_path conf (uuid e) "data", "stage1init");
                         (master_path conf (uuid e), "stage1ingest");
                         (status_path conf (uuid e) "data", "stage1ingest");
                         (status_path conf (uuid e) "data", "stage1ingestComplete");
                         (master_path conf (uuid e), "stage1complete")])%list.
Proof.
  intros Ha Hc Hb Hr Hf. cbv zeta.
  unfold client_workflow. rewrite Ha.
  rewrite (bind_ok _ _ e w e w) by reflexivity. cbv beta.
  rewrite (bind_ok _ _ e w true w).
  2:{ unfold check_hdfs_for_target, hdfs_status, gets.
      rewrite (bind_ok _ _ e w (Some "FILE") w); [reflexivity|]. simpl.
      rewrite (hdfs_kind_efile _ _ c Hc). reflexivity. }
  cbn [negb]. destruct (init_new_job_fresh conf e w Hf) as (w2 & Hi & Hn2 & Hl2).
  rewrite (bind_ok _ _ _ _ _ _ Hi). cbv beta iota.
  change (str_in "stage1init" "stage1init") with true. cbn [negb].
  destruct (job_paths_distinct conf (uuid e)) as (D1 & D2 & D3).
  assert (G : status_grown conf (uuid e) (ns w) (ns w2)).
  { rewrite Hn2. apply grown_insert; [|right; reflexivity].
    apply grown_insert; [apply status_grown_refl|left; reflexivity]. }
  set (target := realpath_comps (cwd e) f) in *.
  set (moved := (data_path conf (uuid e) ++ [default EmptyString (last target)])%list).
  set (n3 := <[status_path conf (uuid e) "data" := EFile "stage1ingest"]>
               (<[master_path conf (uuid e) := EFile "stage1ingest"]> (ns w2))).
  pose proof (G1 := grown_insert _ _ _ _ G (master_path conf (uuid e)) "stage1ingest" (or_introl eq_refl)).
  pose proof (G2 := grown_insert _ _ _ _ G1 (status_path conf (uuid e) "data") "stage1ingest" (or_intror eq_refl)).
  fold n3 in G2.
  assert (Hkeep : forall k, k <> master_path conf (uuid e) -> k <> status_path conf (uuid e) "data" ->
                            n3 !! k = ns w !! k).
  { intros k Hk1 Hk2. unfold n3. rewrite Hn2. rewrite !lookup_insert_ne by congruence. reflexivity. }
  assert (Hm3 : exists cm, n3 !! master_path conf (uuid e) = Some (EFile cm)).
  { exists "stage1ingest". unfold n3. rewrite lookup_insert_ne by congruence. apply lookup_insert_eq. }
  assert (Hs3 : exists cs, n3 !! status_path conf (uuid e) "data" = Some (EFile cs)).
  { exists "stage1ingest". apply lookup_insert_eq. }
  assert (Hing : exists w7, ingest_targets conf (uuid e) target e w2 = (inr (uuid e, "stage1ingestComplete"), w7) /\
            ns w7 = <[status_path conf (uuid e) "data" := EFile "stage1ingestComplete"]>
                      (<[moved := EFile c]> (delete target (<[data_path conf (uuid e) := EDir]> n3))) /\
            wlog w7 = (wlog w2 ++ [(master_path conf (uuid e), "stage1ingest");
                                   (status_path conf (uuid e) "data", "stage1ingest");
                                   (status_path conf (uuid e) "data", "stage1ingestComplete")])%list).
  { unfold ingest_targets, set_status.
    rewrite (bind_ok _ _ _ _ _ _
               (grown_write _ _ _ _ Hf G (master_path conf (uuid e)) "stage1ingest" e w2
                            eq_refl (or_introl eq_refl))).
    set (w3 := set_wlog (wlog w2 ++ [(master_path conf (uuid e), "stage1ingest")])%list
                 (set_ns (<[master_path conf (uuid e) := EFile "stage1ingest"]> (ns w2)) w2)).
    rewrite (bind_ok _ _ _ _ _ _
               (grown_write _ _ _ _ Hf G1 (status_path conf (uuid e) "data") "stage1ingest" e w3
                            eq_refl (or_intror eq_refl))).
    set (w4 := set_wlog (wlog w3 ++ [(status_path conf (uuid e) "data", "stage1ingest")])%list
                 (set_ns (<[status_path conf (uuid e) "data" := EFile "stage1ingest"]> (ns w3)) w3)).
    rewrite (bind_ok _ _ _ _ _ _ (grown_makedirs _ _ _ _ Hf G2 e w4 eq_refl)).
    set (w5 := set_ns (<[data_path conf (uuid e) := EDir]> (ns w4)) w4).
    rewrite (bind_ok _ _ _ _ _ _
               (rename_file_ok target (data_path conf (uuid e)) c e w5
                  (n4_data_dir conf (uuid e) n3)
                  (n4_target conf (uuid e) (ns w) n3 target c Hf Hkeep Hc)
                  (n4_below conf (uuid e) (ns w) n3 target c Hf G2 Hc Hb)
                  Hr
                  (n4_moved_free conf (uuid e) (ns w) n3 target Hf G2))).
    fold moved.
    set (w6 := set_ns (<[moved := EFile c]> (delete target (ns w5))) w5).
    destruct (n5_status_write conf (uuid e) (ns w) n3 target c Hf G2 Hs3 Hc) as [S1 S2].
    rewrite (bind_ok _ _ _ _ _ _ (hdfs_write_ok _ "stage1ingestComplete" e w6 S1 S2)).
    eexists. split; [reflexivity|]. split; [reflexivity|].
    cbn [w6 w5 w4 w3 wlog set_wlog set_ns]. rewrite <- !app_assoc. reflexivity. }
  destruct Hing as (w7 & Hing & Hn7 & Hl7).
  rewrite (bind_ok _ _ _ _ _ _ Hing). cbv beta iota. cbn [String.eqb Ascii.eqb Bool.eqb negb].
  destruct (n6_master_write conf (uuid e) (ns w) n3 target c Hf G2 Hm3 Hc "stage1ingestComplete")
    as [S3 S4].
  fold moved in S3, S4. rewrite <- Hn7 in S3, S4.
  assert (Hfin : finalise_client conf (uuid e) e w7 =
                   (inr true, set_wlog (wlog w7 ++ [(master_path conf (uuid e), "stage1complete")])%list
                                (set_ns (<[master_path conf (uuid e) := EFile "stage1complete"]> (ns w7)) w7))).
  { unfold finalise_client, set_status.
    rewrite (bind_ok _ _ _ _ _ _ (hdfs_write_ok _ "stage1complete" e w7 S3 S4)). reflexivity. }
  rewrite (bind_ok _ _ _ _ _ _ Hfin).
  cbn [fst snd ret]. split; [reflexivity|]. split.
  - cbn [ns wlog set_wlog set_ns]. rewrite Hn7. unfold n3. rewrite Hn2.
    assert (T1 : target <> master_path conf (uuid e)) by exact (target_not_job conf (uuid e) (ns w) target c Hf Hc _ _ (shape_jobs)).
    assert (T2 : target <> status_path conf (uuid e) "data") by exact (target_not_job conf (uuid e) (ns w) target c Hf Hc _ _ (shape_status)).
    assert (T3 : target <> data_path conf (uuid e)) by exact (target_not_job conf (uuid e) (ns w) target c Hf Hc _ _ (shape_data)).
    assert (T4 : target <> moved) by exact (target_not_moved conf (uuid e) (ns w) target c Hf Hc).
    assert (M1 : moved <> master_path conf (uuid e)) by exact (moved_not_job conf (uuid e) target _ _ shape_jobs).
    assert (M2 : moved <> status_path conf (uuid e) "data") by exact (moved_not_job conf (uuid e) target _ _ shape_status).
    assert (M3 : moved <> data_path conf (uuid e)) by exact (moved_not_job conf (uuid e) target _ _ shape_data).
    apply map_eq. intros i. repeat (rewrite lookup_insert || rewrite lookup_delete).
    repeat case_decide; congruence.
  - cbn [ns wlog set_wlog set_ns]. rewrite Hl7, Hl2, <- !app_assoc. reflexivity.
Qed.

Lemma client_workflow_success_witness :
  let args := <["file_to_shred" := "/user/alice/x"]> (∅ : gmap string string) in
  let e := env_at "10.0.0.9" "J1" 0 true in
  args !! "file_to_shred" = Some "/user/alice/x" /\
  ns w_user !! realpath_comps (cwd e) "/user/alice/x" = Some (EFile "payload") /\
  (forall k x, ns w_user !! k = Some x -> realpath_comps (cwd e) "/user/alice/x" `prefix_of` k ->
               k = realpath_comps (cwd e) "/user/alice/x") /\
  can_rename e (realpath_comps (cwd e) "/user/alice/x") = true /\
  job_fresh cf (uuid e) (ns w_user) /\
  (let target := realpath_comps (cwd e) "/user/alice/x" in
   let moved := (data_path cf (uuid e) ++ [default EmptyString (last target)])%list in
   let r := client_workflow cf args e w_user in
   r.1 = inr tt /\
   ns r.2 = <[master_path cf (uuid e) := EFile "stage1complete"]>
              (<[status_path cf (uuid e) "data" := EFile "stage1ingestComplete"]>
                (<[data_path cf (uuid e) := EDir]>
                  (<[moved := EFile "payload"]> (delete target (ns w_user))))) /\
   wlog r.2 = (wlog w_user ++ [(master_path cf (uuid e), "stage1init");
                               (status_path cf (uuid e) "data", "stage1init");
                               (master_path cf (uuid e), "stage1ingest");
                               (status_path cf (uuid e) "data", "stage1ingest");
                               (status_path cf (uuid e) "data", "stage1ingestComplete");
                               (master_path cf (uuid e), "stage1complete")])%list).
Proof.
  intros args e.
  assert (H1 : args !! "file_to_shred" = Some "/user/alice/x") by reflexivity.
  assert (H2 : ns w_user !! realpath_comps (cwd e) "/user/alice/x" = Some (EFile "payload"))
    by (vm_compute; reflexivity).
  assert (H3 : forall k x, ns w_user !! k = Some x -> realpath_comps (cwd e) "/user/alice/x" `prefix_of` k ->
                           k = realpath_comps (cwd e) "/user/alice/x").
  { intros k x H _. unfold w_user, with_ns in H. simpl in H.
    apply lookup_singleton_Some in H as [<- _]. vm_compute. reflexivity. }
  assert (H4 : can_rename e (realpath_comps (cwd e) "/user/alice/x") = true) by reflexivity.
  assert (H5 : job_fresh cf (uuid e) (ns w_user)).
  { intros k x H. unfold w_user, with_ns in H. simpl in H.
    apply lookup_singleton_Some in H as [<- <-]. unfold target_x.
    split; [|split]; [intros Hp ..|intros [Hp|Hp]];
      apply prefix_cons_inv_1 in Hp; discriminate. }
  split; [exact H1|]. split; [exact H2|]. split; [exact H3|]. split; [exact H4|]. split; [exact H5|].
  exact (client_workflow_success cf args "/user/alice/x" "payload" e w_user H1 H2 H3 H4 H5).
Defined.
